(** * A Slack-to-Okta support agent: the webhook gate and the Okta tools

    A shallow embedding of [src/mastra/index.ts] (the [/slack/events] route:
    handshake, bot filter, duplicate filter, mention stripping, agent call,
    reply post) and of [src/mastra/tools/okta.ts] (the eight Okta tools),
    with the properties the specification states about them.

    Conventions of the embedding.
    - A JavaScript string is the list of its UTF-16 code units.
    - A field that may be missing from a JSON object is an [option];
      [None] is JavaScript's [undefined].  The payloads have the types the
      two platforms document: every field of a Slack payload that is present
      is a string, Okta answers a query for groups with an array of group
      objects.  The body [findUserByEmail] reads is any JSON value.
    - The language model, Slack's [chat.postMessage] and Okta are outside the
      program; their answers are parameters ([World], [Okta.Fetch]), and so
      are the host functions [encodeURIComponent] and [toLowerCase].
    - An [async] function is the sequence of its effects in program order;
      an [await] is the point where the awaited answer is read.
    - The server answers a request with the [Response] its handler returns:
      [c.status] stores a status code in the context, [c.json] and [c.body]
      build the response from it, and nothing is sent before the handler's
      promise settles. *)

From Corelib Require Import PrimFloat.
From Stdlib Require Import NArith String Ascii DecimalString.
From stdpp Require Import base option list gmap sets.

#[local] Open Scope N_scope.

(** ** JavaScript strings *)

Definition jsstring : Type := list N.

(** A literal of the source, written with Basic Latin characters only. *)
Definition str (s : string) : jsstring :=
  map N_of_ascii (list_ascii_of_string s).

(** [undefined], [null] and the empty string are the falsy values an optional
    string can take. *)
Definition truthy (v : option jsstring) : bool :=
  match v with
  | Some (_ :: _) => true
  | _ => false
  end.

(** [a || b] *)
Definition or_else (a b : option jsstring) : option jsstring :=
  if truthy a then a else b.

(** [${v}] inside a template literal. *)
Definition template (v : option jsstring) : jsstring :=
  match v with
  | Some s => s
  | None => str "undefined"
  end.

(** [a === "literal"] for an optional string [a]. *)
Definition strict_eq (a : option jsstring) (lit : jsstring) : bool :=
  match a with
  | Some s => bool_decide (s = lit)
  | None => false
  end.

(** [${n}] for a non-negative integer below 10^21: its decimal digits. *)
Definition decimal (n : N) : jsstring :=
  str (NilEmpty.string_of_uint (N.to_uint n)).

(** [s.includes(sub)] *)
Fixpoint starts_with (sub s : jsstring) : bool :=
  match sub, s with
  | [], _ => true
  | c :: sub', d :: s' => bool_decide (c = d) && starts_with sub' s'
  | _ :: _, [] => false
  end.

Fixpoint includes (sub s : jsstring) : bool :=
  starts_with sub s ||
  match s with
  | [] => false
  | _ :: s' => includes sub s'
  end.

(** *** Character classes *)

(** [\s] of a regular expression without the [u] flag, which is also the set
    [String.prototype.trim] removes: WhiteSpace and LineTerminator. *)
Definition is_space (c : N) : bool :=
  ((9 <=? c) && (c <=? 13))            (* TAB LF VT FF CR *)
  || (c =? 32) || (c =? 160)           (* SP, NBSP *)
  || (c =? 5760)                       (* U+1680 *)
  || ((8192 <=? c) && (c <=? 8202))    (* U+2000 .. U+200A *)
  || (c =? 8232) || (c =? 8233)        (* LS, PS *)
  || (c =? 8239) || (c =? 8287)        (* U+202F, U+205F *)
  || (c =? 12288) || (c =? 65279).     (* U+3000, U+FEFF *)

(** [[A-Z0-9]] *)
Definition is_id_char (c : N) : bool :=
  ((65 <=? c) && (c <=? 90)) || ((48 <=? c) && (c <=? 57)).

Definition LT : N := 60.   (* < *)
Definition AT : N := 64.   (* @ *)
Definition GT : N := 62.   (* > *)

Fixpoint take_while (p : N -> bool) (s : jsstring) : jsstring :=
  match s with
  | c :: s' => if p c then c :: take_while p s' else []
  | [] => []
  end.

Fixpoint drop_while (p : N -> bool) (s : jsstring) : jsstring :=
  match s with
  | c :: s' => if p c then drop_while p s' else s
  | [] => []
  end.

(** [s.trim()] *)
Definition trim (s : jsstring) : jsstring :=
  rev (drop_while is_space (rev (drop_while is_space s))).

(** *** The regular expression [/<@[A-Z0-9]+>\s*/]

    [mention_at s] is the match of the expression anchored at the start of
    [s], as the number of code units it consumes.  Both quantifiers are
    greedy and neither can give back a code unit: [>] is not in
    [[A-Z0-9]], and nothing follows [\s*]. *)
Definition mention_at (s : jsstring) : option nat :=
  match s with
  | a :: b :: s1 =>
      if (a =? LT) && (b =? AT) then
        let ids := take_while is_id_char s1 in
        match ids, drop_while is_id_char s1 with
        | _ :: _, c :: s2 =>
            if c =? GT
            then Some (3 + length ids + length (take_while is_space s2))%nat
            else None
        | _, _ => None
        end
      else None
  | _ => None
  end.

(** [s.replace(/<@[A-Z0-9]+>\s*/g, "")]: the scan goes left to right; at a
    position where the expression matches, the match is deleted and the scan
    goes on after it; elsewhere the code unit is kept.  [skip] counts the code
    units of the current match that are still to be deleted. *)
Fixpoint replace_from (skip : nat) (s : jsstring) : jsstring :=
  match s with
  | [] => []
  | c :: s' =>
      match skip with
      | S k => replace_from k s'
      | O =>
          match mention_at s with
          | Some (S k) => replace_from k s'
          | _ => c :: replace_from O s'
          end
      end
  end.

Definition replace_mentions (s : jsstring) : jsstring := replace_from O s.

(** What the global replacement is, said without an algorithm.  A token
    starts [s] when [<@[A-Z0-9]+>] matches there; [mentions_removed s out]
    reads [s] from the left, drops each token it meets together with all the
    white space after it, and keeps every other code unit. *)
Definition token_starts (s : jsstring) : Prop :=
  ∃ ids rest, ids ≠ [] ∧ Forall (fun c => is_id_char c = true) ids
              ∧ s = LT :: AT :: ids ++ GT :: rest.

Inductive mentions_removed : jsstring -> jsstring -> Prop :=
| removed_nil : mentions_removed [] []
| removed_token ids ws rest out :
    ids ≠ [] ->
    Forall (fun c => is_id_char c = true) ids ->
    Forall (fun c => is_space c = true) ws ->
    (∀ c rest', rest = c :: rest' -> is_space c = false) ->
    mentions_removed rest out ->
    mentions_removed (LT :: AT :: ids ++ GT :: ws ++ rest) out
| removed_keep c s out :
    ¬ token_starts (c :: s) ->
    mentions_removed s out ->
    mentions_removed (c :: s) (c :: out).

(** The specification's reading of the mention rule: only a token at the very
    start of the text is taken off. *)
Definition leading_mention_removed (s : jsstring) : jsstring :=
  match mention_at s with
  | Some n => drop n s
  | None => s
  end.

(** ** The route [/slack/events] ([src/mastra/index.ts]) *)

(** The [event] object of a Slack payload. *)
Module Event.
Record t := {
  type : option jsstring;
  text : option jsstring;
  channel : option jsstring;
  client_msg_id : option jsstring;
  ts : option jsstring;
  bot_id : option jsstring
}.
End Event.

(** The request body, after [c.req.json()]. *)
Record Body := {
  type : option jsstring;
  challenge : option jsstring;
  event : option Event.t
}.

(** [event?.field] *)
Definition opt_field (e : option Event.t) (field : Event.t -> option jsstring)
  : option jsstring :=
  match e with
  | Some ev => field ev
  | None => None
  end.

Notation "e ?. f" := (opt_field e f) (at level 9, f at level 1, format "e ?. f").

(** The object handed to [JSON.stringify] for [chat.postMessage]. *)
Record ChatPost := {
  channel : option jsstring;
  text : jsstring
}.

(** What [fetch] is called with. *)
Record Request := {
  url : jsstring;
  method : jsstring;
  headers : list (jsstring * jsstring);
  body : option ChatPost
}.

(** The response the handler returns: [c.json({ challenge })] or
    [c.body(null)], with the status held by the context at that point. *)
Inductive Payload :=
| json_challenge (challenge : option jsstring)
| null_body.

Record HttpResponse := {
  code : N;
  payload : Payload
}.

(** What the handler does, in program order.  [respond] is the server
    sending the response the handler returned.  What the agent and its tools
    do inside [agent.generate], their calls of [fetch] to Okta among them, is
    behind [agent_call] and [agent_settled] and is not listed. *)
Inductive effect :=
| console_log (msg : jsstring)
| console_error
| cache_add (eventId : jsstring)
| agent_call (messageText : jsstring)
| agent_settled (result_text : option jsstring)
| fetch_call (req : Request)
| fetch_settled (resolved : bool)
| respond (r : HttpResponse).

(** The collaborators of one request: [agent.generate(messageText)], on the
    agent registered as [itAgent], resolves to a result whose [text] is
    given, or rejects ([None]); [fetch] to Slack resolves ([true], whatever
    the HTTP status) or rejects. *)
Record World := {
  SLACK_BOT_TOKEN : jsstring;
  agent_generate : jsstring -> option jsstring;
  slack_fetch : Request -> bool
}.

(** The state a handler run works on: the module-level [processedEvents] and
    the status of its context [c] (200 until [c.status] is called). *)
Record HandlerState := {
  processedEvents : gset jsstring;
  status : N
}.

Inductive exn :=
| Error (message : jsstring)      (* throw new Error(message) *)
| Rejected                        (* the promise of agent.generate or fetch rejected *)
| SyntaxError                     (* res.json() on a body that is not JSON *)
| URIError                        (* encodeURIComponent on a lone surrogate *)
| TypeError.                      (* a property of null, an object without a string form *)

Inductive outcome (A : Type) :=
| Return (a : A)
| Throw (e : exn).
Arguments Return {A} a.
Arguments Throw {A} e.

(** Handler code: state, effects in order, exceptions. *)
Definition M (A : Type) : Type :=
  HandlerState -> outcome A * HandlerState * list effect.

#[global] Instance M_ret : MRet M := fun A a st => (Return a, st, []).

#[global] Instance M_bind : MBind M := fun A B k m st =>
  match m st with
  | (Return a, st1, tr1) =>
      match k a st1 with
      | (r, st2, tr2) => (r, st2, tr1 ++ tr2)
      end
  | (Throw e, st1, tr1) => (Throw e, st1, tr1)
  end.

(** [try { m } catch (error) { h }] *)
Definition try_catch {A} (m : M A) (h : exn -> M A) : M A :=
  fun st =>
    match m st with
    | (Throw e, st1, tr1) =>
        match h e st1 with
        | (r, st2, tr2) => (r, st2, tr1 ++ tr2)
        end
    | r => r
    end.

Definition emit (e : effect) : M unit := fun st => (Return tt, st, [e]).

Definition throw {A} (e : exn) : M A := fun st => (Throw e, st, []).

Definition c_status (n : N) : M unit :=
  fun st => (Return tt, {| processedEvents := processedEvents st; status := n |}, []).

Definition c_json (challenge : option jsstring) : M HttpResponse :=
  fun st => (Return {| code := status st; payload := json_challenge challenge |}, st, []).

Definition c_body_null : M HttpResponse :=
  fun st => (Return {| code := status st; payload := null_body |}, st, []).

Definition processedEvents_has (eventId : jsstring) : M bool :=
  fun st => (Return (bool_decide (eventId ∈ processedEvents st)), st, []).

Definition processedEvents_add (eventId : jsstring) : M unit :=
  fun st =>
    (Return tt,
     {| processedEvents := {[ eventId ]} ∪ processedEvents st; status := status st |},
     [cache_add eventId]).

(** [await agent.generate(messageText)], then [result.text] *)
Definition await_agent (w : World) (messageText : jsstring) : M jsstring :=
  emit (agent_call messageText);;
  let r := agent_generate w messageText in
  emit (agent_settled r);;
  match r with
  | Some result_text => mret result_text
  | None => throw Rejected
  end.

(** [await fetch(...)] *)
Definition await_fetch (w : World) (req : Request) : M unit :=
  emit (fetch_call req);;
  let r := slack_fetch w req in
  emit (fetch_settled r);;
  if r then mret tt else throw Rejected.

Definition EVENT_EXPIRY_MS : N := 5 * 60 * 1000.

(** [`${event?.client_msg_id || event?.ts}_${event?.channel}`] *)
Definition eventId (event : option Event.t) : jsstring :=
  template (or_else event?.Event.client_msg_id event?.Event.ts)
  ++ str "_" ++ template event?.Event.channel.

Definition postMessage (w : World) (channel : option jsstring) (text : jsstring) : Request :=
  {| url := str "https://slack.com/api/chat.postMessage";
     method := str "POST";
     headers := [ (str "Authorization", str "Bearer " ++ SLACK_BOT_TOKEN w);
                  (str "Content-Type", str "application/json") ];
     body := Some {| channel := channel; text := text |} |}.

(** [event.text], where the test before has found it truthy. *)
Definition text_of (ev : Event.t) : jsstring :=
  match Event.text ev with
  | Some text => text
  | None => []
  end.

(** The [handler] of the route, from the destructuring of [body] on. *)
Definition handler (w : World) (body : Body) : M HttpResponse :=
  let type := type body in
  let challenge := challenge body in
  let event := event body in
  if strict_eq type (str "url_verification") then
    c_json challenge
  else
    c_status 200;;
    if truthy event?.Event.bot_id then
      c_body_null
    else
      let eventId := eventId event in
      seen ← processedEvents_has eventId;
      if seen : bool then
        emit (console_log (str "Skipping duplicate event: " ++ eventId));;
        c_body_null
      else
        processedEvents_add eventId;;
        match event with
        | Some ev =>
            if (strict_eq (Event.type ev) (str "message")
                || strict_eq (Event.type ev) (str "app_mention"))
               && truthy (Event.text ev)
            then
              try_catch
                (let messageText := text_of ev in
                 let messageText :=
                   if strict_eq (Event.type ev) (str "app_mention")
                   then trim (replace_mentions messageText)
                   else messageText in
                 emit (console_log (str "Processing " ++ template (Event.type ev)
                                    ++ str ": " ++ [34] ++ messageText ++ [34]));;
                 result_text ← await_agent w messageText;
                 await_fetch w (postMessage w (Event.channel ev) result_text))
                (fun error => emit console_error)
            else mret tt
        | None => mret tt
        end;;
        c_body_null.

(** The server: it runs the handler on a fresh context and sends what the
    handler's promise settles to, a failure as a 500. *)
Definition serve (w : World) (body : Body) (cache : gset jsstring)
  : gset jsstring * list effect :=
  match handler w body {| processedEvents := cache; status := 200 |} with
  | (Return r, st, tr) => (processedEvents st, tr ++ [respond r])
  | (Throw _, st, tr) =>
      (processedEvents st, tr ++ [respond {| code := 500; payload := null_body |}])
  end.

(** [setInterval(() => processedEvents.clear(), EVENT_EXPIRY_MS)] *)
Definition timer_interval : N := EVENT_EXPIRY_MS.
Definition on_timer (cache : gset jsstring) : gset jsstring := ∅.

(** What reaches the process: a webhook delivery, with the collaborators'
    answers for it, or a tick of the timer.  The handler touches
    [processedEvents] only before its first [await], so the deliveries act on
    the set one after the other, in the order in which their handlers start. *)
Inductive input :=
| Deliver (w : World) (body : Body)
| Tick.

Fixpoint run (cache : gset jsstring) (ins : list input)
  : list (Body * list effect) * gset jsstring :=
  match ins with
  | [] => ([], cache)
  | Deliver w body :: rest =>
      let '(cache1, tr) := serve w body cache in
      let '(outs, cache2) := run cache1 rest in
      ((body, tr) :: outs, cache2)
  | Tick :: rest => run (on_timer cache) rest
  end.

(** Observations on a trace. *)
Definition agent_calls (tr : list effect) : list jsstring :=
  omap (fun e => match e with agent_call t => Some t | _ => None end) tr.

Definition posts (tr : list effect) : list Request :=
  omap (fun e => match e with fetch_call r => Some r | _ => None end) tr.

Definition cache_adds (tr : list effect) : list jsstring :=
  omap (fun e => match e with cache_add i => Some i | _ => None end) tr.

Definition responses (tr : list effect) : list HttpResponse :=
  omap (fun e => match e with respond r => Some r | _ => None end) tr.

(** ** JSON values

    What [res.json()] can resolve to when the code reads it as [any]. *)
#[local] Unset Elimination Schemes.
Inductive value :=
| JNull
| JBool (b : bool)
| JNum (n : float)
| JStr (s : jsstring)
| JArr (items : list value)
| JObj (fields : list (jsstring * value)).
#[local] Set Elimination Schemes.

(** ToBoolean *)
Definition js_truthy (v : value) : bool :=
  match v with
  | JNull => false
  | JBool b => b
  | JNum n => negb (PrimFloat.eqb n 0%float || PrimFloat.is_nan n)
  | JStr s => match s with [] => false | _ :: _ => true end
  | JArr _ | JObj _ => true
  end.

(** The own property [key] of a parsed object; where the text repeats a
    key, [JSON.parse] keeps the last value. *)
Fixpoint get_field (key : jsstring) (fields : list (jsstring * value)) : option value :=
  match fields with
  | [] => None
  | (k, v) :: rest =>
      match get_field key rest with
      | Some later => Some later
      | None => if bool_decide (k = key) then Some v else None
      end
  end.

(** [v[0]] for a value other than [null]; [None] is [undefined]. *)
Definition index0 (v : value) : option value :=
  match v with
  | JArr (first :: _) => Some first
  | JStr (c :: _) => Some (JStr [c])
  | JObj fields => get_field (str "0") fields
  | _ => None
  end.

(** [v || null] *)
Definition or_null (v : option value) : value :=
  match v with
  | Some x => if js_truthy x then x else JNull
  | None => JNull
  end.

(** [${v}] throws a [TypeError]: an object with a [toString] of its own has
    no string form (the property is not a function, and the inherited
    [valueOf] gives back the object); an array is joined from the string
    forms of its elements. *)
Fixpoint template_throws (v : value) : bool :=
  match v with
  | JObj fields => existsb (fun kv => bool_decide (kv.1 = str "toString")) fields
  | JArr items => existsb template_throws items
  | _ => false
  end.

(** [`Found ${users.length} user(s)`] throws: [users] is [null], or it is an
    object whose [length] has no string form.  The length of an array or of
    a string is a number, any other value has none. *)
Definition found_count_throws (users : value) : bool :=
  match users with
  | JNull => true
  | JObj fields =>
      match get_field (str "length") fields with
      | Some v => template_throws v
      | None => false
      end
  | _ => false
  end.

(** ** The Okta tools ([src/mastra/tools/okta.ts])

    Each [execute] is a function of its input and of Okta's answer; what it
    writes to the console is left out, an exception raised on the way is
    not.  [None] for a [null] result; [findUserByEmail] returns the JSON
    value it found, [JNull] for [null]. *)
Module Okta.

(** What [await fetch(...)] resolves to: the status, and what the two
    readers of the body give, [res.text()] and [res.json()] ([None] when
    the body is not JSON).  [A] is the type of the parsed body. *)
Record Response (A : Type) := {
  status : N;
  text : jsstring;
  json : option A
}.
Arguments status {A} _.
Arguments text {A} _.
Arguments json {A} _.

(** [res.ok] *)
Definition ok {A} (res : Response A) : bool :=
  (200 <=? status res) && (status res <=? 299).

(** [fetch] towards Okta; [None] when its promise rejects. *)
Definition Fetch (A : Type) : Type := Request -> option (Response A).

(** [process.env] *)
Record Env := {
  OKTA_ORG_URL : option jsstring;
  OKTA_API_TOKEN : option jsstring
}.

(** A group object, as far as the code reads it. *)
Record GroupProfile := { name : jsstring }.
Record Group := { id : jsstring; profile : GroupProfile }.

(** The body of [lifecycle/reset_password], read as [any]. *)
Record ResetPasswordResult := { resetPasswordUrl : option jsstring }.

(** [{ success, message }] *)
Record StatusOutput := { success : bool; message : jsstring }.

Definition getHeaders (env : Env) : list (jsstring * jsstring) :=
  [ (str "Authorization", str "SSWS " ++ template (OKTA_API_TOKEN env));
    (str "Accept", str "application/json") ].

Definition request (env : Env) (method : jsstring) (path : jsstring) : Request :=
  {| url := template (OKTA_ORG_URL env) ++ path;
     method := method;
     headers := getHeaders env;
     body := None |}.

Definition lifecycle (env : Env) (userId action : jsstring) : Request :=
  request env (str "POST") (str "/api/v1/users/" ++ userId ++ str "/lifecycle/" ++ action).

Section Tools.
(** Functions of the host: [encodeURIComponent] ([None] for its
    [URIError]) and [String.prototype.toLowerCase]. *)
Variable encodeURIComponent : jsstring -> option jsstring.
Variable toLowerCase : jsstring -> jsstring.
Variable env : Env.

Definition users_request (filter : jsstring) : Request :=
  request env (str "GET") (str "/api/v1/users?filter=" ++ filter).

(** [findUserByEmail]; its [catch] logs and throws the same error again. *)
Definition findUserByEmail (fetch : Fetch value) (email : jsstring) : outcome value :=
  match encodeURIComponent (str "profile.email eq " ++ [34] ++ email ++ [34]) with
  | None => Throw URIError
  | Some filter =>
      match fetch (users_request filter) with
      | None => Throw Rejected
      | Some res =>
          if negb (ok res) then
            let errorText := text res in
            Throw (Error (str "Okta API returned " ++ decimal (status res)
                          ++ str ": " ++ errorText))
          else
            match json res with
            | None => Throw SyntaxError
            | Some users =>
                if found_count_throws users then Throw TypeError
                else Return (or_null (index0 users))      (* users[0] || null *)
            end
      end
  end.

Definition user_groups_request (userId : jsstring) : Request :=
  request env (str "GET") (str "/api/v1/users/" ++ userId ++ str "/groups").

Definition getUserGroups (fetch : Fetch (list Group)) (userId : jsstring)
  : outcome (list jsstring) :=
  match fetch (user_groups_request userId) with
  | None => Throw Rejected
  | Some res =>
      match json res with
      | None => Throw SyntaxError
      | Some groups => Return (map (fun g => name (profile g)) groups)
      end
  end.

Definition reset_password_request (userId : jsstring) : Request :=
  lifecycle env userId (str "reset_password?sendEmail=false").

Definition resetPassword (fetch : Fetch ResetPasswordResult) (userId : jsstring)
  : outcome ResetPasswordResult :=
  match fetch (reset_password_request userId) with
  | None => Throw Rejected
  | Some res =>
      match json res with
      | None => Throw SyntaxError
      | Some result => Return {| resetPasswordUrl := resetPasswordUrl result |}
      end
  end.

Definition lockUser {A} (fetch : Fetch A) (userId : jsstring) : outcome StatusOutput :=
  match fetch (lifecycle env userId (str "suspend")) with
  | None => Throw Rejected
  | Some res =>
      if negb (ok res) then
        let errorText := text res in
        Throw (Error (str "Failed to lock user: " ++ errorText))
      else
        Return {| success := true; message := str "User account has been locked" |}
  end.

Definition unlockUser {A} (fetch : Fetch A) (userId : jsstring) : outcome StatusOutput :=
  match fetch (lifecycle env userId (str "unsuspend")) with
  | None => Throw Rejected
  | Some res =>
      if negb (ok res) then
        let errorText := text res in
        Throw (Error (str "Failed to unlock user: " ++ errorText))
      else
        Return {| success := true; message := str "User account has been unlocked" |}
  end.

Definition groups_request (query : jsstring) : Request :=
  request env (str "GET") (str "/api/v1/groups?q=" ++ query).

Definition findGroupByName (fetch : Fetch (list Group)) (groupName : jsstring)
  : outcome (option Group) :=
  match encodeURIComponent groupName with
  | None => Throw URIError
  | Some query =>
      match fetch (groups_request query) with
      | None => Throw Rejected
      | Some res =>
          if negb (ok res) then
            let errorText := text res in
            Throw (Error (str "Failed to search groups: " ++ errorText))
          else
            match json res with
            | None => Throw SyntaxError
            | Some groups =>
                (* Find exact match (case-insensitive) *)
                Return (find (fun g => bool_decide
                                (toLowerCase (name (profile g)) = toLowerCase groupName))
                             groups)                 (* group || null *)
            end
      end
  end.

Definition membership_request (userId groupId : jsstring) : Request :=
  request env (str "PUT") (str "/api/v1/groups/" ++ groupId ++ str "/users/" ++ userId).

Definition addUserToGroup {A} (fetch : Fetch A) (userId groupId : jsstring)
  : outcome StatusOutput :=
  match fetch (membership_request userId groupId) with
  | None => Throw Rejected
  | Some res =>
      if negb (ok res) then
        let errorText := text res in
        Throw (Error (str "Failed to add user to group: " ++ errorText))
      else
        Return {| success := true; message := str "User has been added to the group" |}
  end.

Definition resetMFA {A} (fetch : Fetch A) (userId : jsstring) : outcome StatusOutput :=
  match fetch (lifecycle env userId (str "reset_factors")) with
  | None => Throw Rejected
  | Some res =>
      if negb (ok res) then
        let errorText := text res in
        Throw (Error (str "Failed to reset MFA: " ++ errorText))
      else
        Return {| success := true;
                  message := str "MFA factors have been reset. User will need to re-enroll." |}
  end.
End Tools.

(** [toLowerCase] on a string of Basic Latin characters. *)
Definition lower_latin (s : jsstring) : jsstring :=
  map (fun c => if (65 <=? c) && (c <=? 90) then c + 32 else c) s.

Definition is_latin (s : jsstring) : bool := forallb (fun c => c <? 128) s.

(** The [IdentityApiError] of the specification: an error raised for the
    response [res] that holds its status code and its body text. *)
Definition carries_status_and_body {A B} (r : outcome A) (res : Response B) : Prop :=
  ∃ m, r = Throw (Error m)
       ∧ includes (decimal (status res)) m = true
       ∧ includes (text res) m = true.

(** A provider that answers every request with [res]. *)
Definition answering {A} (res : Response A) : Fetch A := fun _ => Some res.

End Okta.

(** ** Sample inputs *)

Definition sample_world : World :=
  {| SLACK_BOT_TOKEN := str "xoxb-token";
     agent_generate := fun messageText => Some (str "On it: " ++ messageText);
     slack_fetch := fun _ => true |}.

Definition sample_event (type text : string) (ts bot_id : option jsstring) : Body :=
  {| type := Some (str "event_callback");
     challenge := None;
     event := Some {| Event.type := Some (str type);
                      Event.text := Some (str text);
                      Event.channel := Some (str "C1");
                      Event.client_msg_id := None;
                      Event.ts := ts;
                      Event.bot_id := bot_id |} |}.

(** [{event:{type:"message", text:"help me reset my password", channel:"C1", ts:"1.1"}}] *)
Definition sample_message : Body :=
  sample_event "message" "help me reset my password" (Some (str "1.1")) None.

(** A bot's message and a person's message, neither with an id or timestamp. *)
Definition bot_without_id : Body :=
  sample_event "message" "deploy finished" None (Some (str "B042")).

Definition person_without_id : Body :=
  sample_event "message" "unlock my account" None None.

Definition sample_mention : Body :=
  sample_event "app_mention" "<@U123ABC> reset my password" (Some (str "2.1")) None.

Definition two_mentions : Body :=
  sample_event "app_mention" "<@U123ABC> ask <@U456DEF> to reset" (Some (str "2.2")) None.

Definition sample_handshake : Body :=
  {| type := Some (str "url_verification");
     challenge := Some (str "3eZbrw1aBm2rZgRNFdxV2595E9CY3gmdALWMmHkvFXO7tYXAYM8P");
     event := None |}.

Definition quoted (s : string) : jsstring := [34] ++ str s ++ [34].

Definition sample_env : Okta.Env :=
  {| Okta.OKTA_ORG_URL := Some (str "https://integrator-1234567.okta.com");
     Okta.OKTA_API_TOKEN := Some (str "00secret") |}.

(** Okta's answer for an unknown user id: status 404 and an error object,
    [{"errorCode":"E0000007","errorSummary":"Not found: Resource not found: 00u1 (User)"}]. *)
Definition not_found : Okta.Response Okta.ResetPasswordResult :=
  {| Okta.status := 404;
     Okta.text := str "{" ++ quoted "errorCode" ++ str ":" ++ quoted "E0000007" ++ str ","
                  ++ quoted "errorSummary" ++ str ":"
                  ++ quoted "Not found: Resource not found: 00u1 (User)" ++ str "}";
     Okta.json := Some {| Okta.resetPasswordUrl := None |} |}.

Definition group_named (id name : string) : Okta.Group :=
  {| Okta.id := str id; Okta.profile := {| Okta.name := str name |} |}.

Definition groups_found (groups : list Okta.Group) : Okta.Response (list Okta.Group) :=
  {| Okta.status := 200; Okta.text := str "[...]"; Okta.json := Some groups |}.

(** A user object, and a 200 answer with a parsed body. *)
Definition user_object (id email : string) : value :=
  JObj [ (str "id", JStr (str id));
         (str "status", JStr (str "ACTIVE"));
         (str "profile", JObj [ (str "email", JStr (str email)) ]) ].

Definition users_found (users : value) : Okta.Response value :=
  {| Okta.status := 200; Okta.text := str "..."; Okta.json := Some users |}.

(** A plain message that holds a mention token and white space at both ends,
    a mention with nothing after the token, and a world whose agent fails. *)
Definition message_with_token : Body :=
  sample_event "message" " <@U123ABC> hello " (Some (str "3.1")) None.

Definition bare_mention : Body :=
  sample_event "app_mention" "<@U123ABC>  " (Some (str "3.2")) None.

Definition failing_world : World :=
  {| SLACK_BOT_TOKEN := str "xoxb-token";
     agent_generate := fun _ => None;
     slack_fetch := fun _ => true |}.

(** ** Vocabulary of the properties *)

(** The request is the platform's handshake. *)
Definition is_verification (b : Body) : bool :=
  strict_eq (type b) (str "url_verification").

(** The event is marked as written by a bot. *)
Definition is_bot (b : Body) : bool := truthy (event b)?.Event.bot_id.

(** The EventFingerprint of a request. *)
Definition fingerprint (b : Body) : jsstring := eventId (event b).

(** The empty success acknowledgment. *)
Definition ack : HttpResponse := {| code := 200; payload := null_body |}.

(** The event is of an accepted type and carries text. *)
Definition eligible (ev : Event.t) : bool :=
  (strict_eq (Event.type ev) (str "message")
   || strict_eq (Event.type ev) (str "app_mention"))
  && truthy (Event.text ev).

(** The message body taken from an eligible event. *)
Definition message_text (ev : Event.t) : jsstring :=
  if strict_eq (Event.type ev) (str "app_mention")
  then trim (replace_mentions (text_of ev))
  else text_of ev.

(** The effects of the [try] statement on an eligible event, spelled out
    ([serve_fresh] shows that the handler produces them). *)
Definition downstream (w : World) (ev : Event.t) : list effect :=
  let messageText := message_text ev in
  [ console_log (str "Processing " ++ template (Event.type ev)
                 ++ str ": " ++ [34] ++ messageText ++ [34]);
    agent_call messageText;
    agent_settled (agent_generate w messageText) ]
  ++ match agent_generate w messageText with
     | Some result_text =>
         let req := postMessage w (Event.channel ev) result_text in
         [ fetch_call req; fetch_settled (slack_fetch w req) ]
         ++ (if slack_fetch w req then [] else [console_error])
     | None => [console_error]
     end.

Definition after_gate (w : World) (b : Body) : list effect :=
  match event b with
  | Some ev => if eligible ev then downstream w ev else []
  | None => []
  end.

(** Work handed to a collaborator: the call of the agent, the post. *)
Definition asynchronous (e : effect) : Prop :=
  match e with
  | agent_call _ | fetch_call _ => True
  | _ => False
  end.

(** The event carries neither a message id nor a timestamp. *)
Definition lacks_id (b : Body) : Prop :=
  (event b)?.Event.client_msg_id = None ∧ (event b)?.Event.ts = None.

(** No tick of the timer among the inputs: they fall in one window. *)
Definition one_window (ins : list input) : Prop :=
  Forall (fun i => i ≠ Tick) ins.

(** The outputs of a run in which the agent was called for fingerprint [f]. *)
Definition forwarded_with (f : jsstring) (outs : list (Body * list effect))
  : list (Body * list effect) :=
  filter (fun o => fingerprint o.1 = f ∧ agent_calls o.2 ≠ []) outs.

(** The downstream work of a request has completed: the agent's promise or
    the promise of the post has settled. *)
Definition settles (e : effect) : Prop :=
  match e with
  | agent_settled _ | fetch_settled _ => True
  | _ => False
  end.

(** The acknowledgment does not wait: in the trace, the response comes before
    every completion of downstream work. *)
Definition ack_does_not_wait (tr : list effect) : Prop :=
  ∀ i j r e, tr !! i = Some (respond r) → tr !! j = Some e → settles e →
             (i < j)%nat.


(** The request gets past the handshake check and the bot filter, to the
    point where its fingerprint is looked up. *)
Definition reaches_gate (b : Body) : bool :=
  negb (is_verification b) && negb (is_bot b).

(** The fingerprints the deliveries of a run bring to the set. *)
Definition gate_fingerprints (ins : list input) : list jsstring :=
  omap (fun i => match i with
                 | Deliver _ b => if reaches_gate b then Some (fingerprint b) else None
                 | Tick => None
                 end) ins.

(** The input is a delivery with a fingerprint other than [f]. *)
Definition other_fingerprint (f : jsstring) (i : input) : Prop :=
  match i with
  | Deliver _ b => fingerprint b ≠ f
  | Tick => False
  end.

(** The identifier of an event: [event?.client_msg_id || event?.ts]. *)
Definition identifier (e : option Event.t) : option jsstring :=
  or_else e?.Event.client_msg_id e?.Event.ts.

Definition UNDERSCORE : N := 95.   (* _ *)

(** ** The regular expression *)

Section While.
Variable p : N -> bool.

Lemma take_drop_while s : take_while p s ++ drop_while p s = s.
Proof. induction s as [|c s IH]; cbn; [done|]. destruct (p c); cbn; congruence. Qed.

Lemma take_while_all s : Forall (fun c => p c = true) (take_while p s).
Proof.
  induction s as [|c s IH]; cbn; [constructor|].
  destruct (p c) eqn:E; constructor; assumption.
Qed.

Lemma drop_while_head s c r : drop_while p s = c :: r → p c = false.
Proof.
  induction s as [|d s IH]; cbn; [done|].
  destruct (p d) eqn:E; [exact IH|]. intros [= -> _]. exact E.
Qed.

Lemma drop_while_length s : (length (drop_while p s) ≤ length s)%nat.
Proof. induction s as [|c s IH]; cbn; [lia|]. destruct (p c); cbn; lia. Qed.

Lemma take_while_app l s :
  Forall (fun c => p c = true) l →
  (∀ c r, s = c :: r → p c = false) →
  take_while p (l ++ s) = l ∧ drop_while p (l ++ s) = s.
Proof.
  intros Hl Hs. induction Hl as [|c l Hc Hl IH]; cbn.
  - destruct s as [|c r]; [done|]. cbn. rewrite (Hs c r eq_refl). done.
  - rewrite Hc. destruct IH as [-> ->]. done.
Qed.

Lemma drop_while_idemp s : drop_while p (drop_while p s) = drop_while p s.
Proof.
  induction s as [|c s IH]; cbn; [done|].
  destruct (p c) eqn:E; [exact IH|]. cbn. rewrite E. done.
Qed.
End While.

Lemma GT_not_id : is_id_char GT = false.
Proof. reflexivity. Qed.

(** [mention_at] finds exactly the tokens, with the white space after them. *)
Lemma mention_at_token ids rest :
  ids ≠ [] → Forall (fun c => is_id_char c = true) ids →
  mention_at (LT :: AT :: ids ++ GT :: rest)
  = Some (3 + length ids + length (take_while is_space rest))%nat.
Proof.
  intros Hne Hids. unfold mention_at.
  destruct (take_while_app is_id_char ids (GT :: rest) Hids) as [Ht Hd].
  { intros c r [= <- _]. exact GT_not_id. }
  rewrite Ht, Hd. cbn. destruct ids; [done|reflexivity].
Qed.

Lemma mention_at_inv s n :
  mention_at s = Some n →
  ∃ ids rest, ids ≠ [] ∧ Forall (fun c => is_id_char c = true) ids
              ∧ s = LT :: AT :: ids ++ GT :: rest
              ∧ n = (3 + length ids + length (take_while is_space rest))%nat.
Proof.
  unfold mention_at. destruct s as [|a [|b s1]]; try done.
  destruct (a =? LT) eqn:Ea; [|done]. destruct (b =? AT) eqn:Eb; [|done]. cbn.
  apply N.eqb_eq in Ea, Eb. subst a b.
  pose proof (take_drop_while is_id_char s1) as Hsplit.
  pose proof (take_while_all is_id_char s1) as Hall.
  destruct (take_while is_id_char s1) as [|i ids] eqn:Et; [done|].
  destruct (drop_while is_id_char s1) as [|c s2] eqn:Ed; [done|].
  destruct (c =? GT) eqn:Ec; [|done]. apply N.eqb_eq in Ec. subst c.
  intros [= <-]. exists (i :: ids), s2. rewrite <- Hsplit. done.
Qed.

Lemma mention_at_None s : mention_at s = None ↔ ¬ token_starts s.
Proof.
  split.
  - intros Hn (ids & rest & Hne & Hids & ->).
    rewrite (mention_at_token ids rest Hne Hids) in Hn. done.
  - intros Hn. destruct (mention_at s) as [n|] eqn:E; [|done].
    destruct (mention_at_inv s n E) as (ids & rest & ? & ? & ? & _).
    exfalso. apply Hn. exists ids, rest. done.
Qed.

Lemma drop_token ids ws rest :
  drop (3 + length ids + length ws) (LT :: AT :: ids ++ GT :: ws ++ rest) = rest.
Proof.
  cbn [Nat.add drop]. induction ids as [|i ids IH]; cbn [length Nat.add app drop].
  - apply drop_app_length.
  - exact IH.
Qed.

Lemma replace_from_drop s : ∀ k, replace_from k s = replace_mentions (drop k s).
Proof.
  induction s as [|c s IH]; intros [|k]; try reflexivity.
  cbn [replace_from drop]. apply IH.
Qed.

Lemma replace_mentions_token s n :
  mention_at s = Some n → replace_mentions s = replace_mentions (drop n s).
Proof.
  intros E. destruct (mention_at_inv s n E) as (ids & rest & _ & _ & -> & ->).
  unfold replace_mentions at 1. cbn [replace_from].
  rewrite E. cbn [Nat.add]. rewrite replace_from_drop. reflexivity.
Qed.

Lemma replace_mentions_keep c s :
  mention_at (c :: s) = None → replace_mentions (c :: s) = c :: replace_mentions s.
Proof. intros E. unfold replace_mentions. cbn [replace_from]. rewrite E. done. Qed.

(** The scan of the code is the reading [mentions_removed] describes. *)
Lemma replace_mentions_sound s : mentions_removed s (replace_mentions s).
Proof.
  remember (length s) as n eqn:Hn. revert s Hn.
  induction n as [n IH] using lt_wf_ind. intros s Hn.
  destruct s as [|c s]; [constructor|].
  destruct (mention_at (c :: s)) as [k|] eqn:E.
  - rewrite (replace_mentions_token _ _ E).
    destruct (mention_at_inv _ _ E) as (ids & rest & Hne & Hids & Hs & ->).
    rewrite Hs.
    replace (drop _ _) with (drop_while is_space rest).
    2:{ rewrite <- (take_drop_while is_space rest) at 3.
        symmetry. apply drop_token. }
    rewrite <- (take_drop_while is_space rest) at 1.
    apply removed_token; try assumption.
    + apply take_while_all.
    + intros d r Hd. exact (drop_while_head _ _ _ _ Hd).
    + apply (IH (length (drop_while is_space rest))); [|done].
      pose proof (drop_while_length is_space rest).
      subst n. rewrite Hs. cbn. rewrite length_app. cbn. lia.
  - rewrite (replace_mentions_keep _ _ E). apply removed_keep.
    + apply mention_at_None, E.
    + apply (IH (length s)); [subst n; cbn; lia | done].
Qed.

Lemma replace_mentions_complete s out :
  mentions_removed s out → out = replace_mentions s.
Proof.
  induction 1 as [|ids ws rest out Hne Hids Hws Hrest _ IH|c s out Hn _ IH].
  - reflexivity.
  - rewrite (replace_mentions_token _ _ (mention_at_token ids (ws ++ rest) Hne Hids)).
    destruct (take_while_app is_space ws rest Hws Hrest) as [-> _].
    rewrite IH, drop_token. reflexivity.
  - rewrite replace_mentions_keep; [congruence|]. apply mention_at_None, Hn.
Qed.

(** A text without [<] holds no token and is left as it is. *)
Lemma replace_mentions_plain s : LT ∉ s → replace_mentions s = s.
Proof.
  induction s as [|c s IH]; intros Hlt; [reflexivity|].
  rewrite replace_mentions_keep.
  - rewrite IH; [done|]. intros H. apply Hlt. by right.
  - apply mention_at_None. intros (ids & rest & _ & _ & [= -> _]).
    apply Hlt. by left.
Qed.

Lemma trim_drop_while s : trim (drop_while is_space s) = trim s.
Proof. unfold trim. rewrite drop_while_idemp. reflexivity. Qed.

(** ** The route: one lemma for each way through the handler *)

Ltac run_handler :=
  unfold serve, handler, is_verification, is_bot, fingerprint, await_agent, await_fetch,
    try_catch, processedEvents_has, processedEvents_add, c_status, c_json,
    c_body_null, emit, throw, mbind, mret, M_bind, M_ret in *;
  cbn [processedEvents status] in *.

Lemma serve_verification w b cache :
  is_verification b = true →
  serve w b cache
  = (cache, [respond {| code := 200; payload := json_challenge (challenge b) |}]).
Proof. intros Hv. run_handler. rewrite Hv. reflexivity. Qed.

Lemma serve_bot w b cache :
  is_verification b = false → is_bot b = true →
  serve w b cache = (cache, [respond ack]).
Proof. intros Hv Hb. run_handler. rewrite Hv, Hb. reflexivity. Qed.

Lemma serve_duplicate w b cache :
  is_verification b = false → is_bot b = false → fingerprint b ∈ cache →
  serve w b cache
  = (cache, [console_log (str "Skipping duplicate event: " ++ fingerprint b); respond ack]).
Proof.
  intros Hv Hb Hin. run_handler. rewrite Hv, Hb.
  rewrite bool_decide_eq_true_2 by exact Hin. reflexivity.
Qed.

Lemma serve_fresh w b cache :
  is_verification b = false → is_bot b = false → fingerprint b ∉ cache →
  serve w b cache
  = ({[ fingerprint b ]} ∪ cache,
     cache_add (fingerprint b) :: after_gate w b ++ [respond ack]).
Proof.
  intros Hv Hb Hin. unfold after_gate, downstream, eligible, message_text.
  run_handler. rewrite Hv, Hb.
  rewrite bool_decide_eq_false_2 by exact Hin.
  destruct (event b) as [ev|]; [|reflexivity].
  destruct (_ && truthy _); [|reflexivity].
  cbv zeta.
  destruct (agent_generate w _) as [result_text|]; [|reflexivity].
  destruct (slack_fetch w _); reflexivity.
Qed.

Ltac serve_cases w b cache :=
  let Hv := fresh "Hv" in
  let Hb := fresh "Hb" in
  let Hin := fresh "Hin" in
  destruct (is_verification b) eqn:Hv;
  [ rewrite (serve_verification w b cache Hv)
  | destruct (is_bot b) eqn:Hb;
    [ rewrite (serve_bot w b cache Hv Hb)
    | destruct (decide (fingerprint b ∈ cache)) as [Hin|Hin];
      [ rewrite (serve_duplicate w b cache Hv Hb Hin)
      | rewrite (serve_fresh w b cache Hv Hb Hin) ] ] ].

Ltac after_gate_cases w b :=
  unfold after_gate, downstream;
  destruct (event b) as [?ev|]; [|try reflexivity];
  [ destruct (eligible _); [|try reflexivity];
    cbv zeta;
    destruct (agent_generate w _) as [?result_text|]; [|try reflexivity];
    destruct (slack_fetch w _); try reflexivity ].

Lemma after_gate_cache_adds w b : cache_adds (after_gate w b) = [].
Proof. after_gate_cases w b. Qed.

Lemma after_gate_responses w b : responses (after_gate w b) = [].
Proof. after_gate_cases w b. Qed.

Lemma after_gate_agent_calls w b :
  agent_calls (after_gate w b)
  = match event b with
    | Some ev => if eligible ev then [message_text ev] else []
    | None => []
    end.
Proof. after_gate_cases w b. Qed.

(** ** The set of processed events *)

Lemma serve_cache_mono w b cache : cache ⊆ (serve w b cache).1.
Proof. serve_cases w b cache; cbn; set_solver. Qed.

Lemma run_cache_mono ins : ∀ cache, one_window ins → cache ⊆ (run cache ins).2.
Proof.
  induction ins as [|[w b|] ins IH]; intros cache Hw; cbn.
  - reflexivity.
  - destruct (serve w b cache) as [cache1 tr] eqn:Hs.
    inversion Hw; subst.
    specialize (IH cache1 ltac:(assumption)).
    destruct (run cache1 ins) as [outs cache2]. cbn in *.
    pose proof (serve_cache_mono w b cache) as Hm. rewrite Hs in Hm. cbn in Hm.
    set_solver.
  - inversion Hw; subst. congruence.
Qed.

(** An event whose fingerprint is in the set goes no further. *)
Lemma serve_cached w b cache :
  fingerprint b ∈ cache →
  (serve w b cache).1 = cache
  ∧ agent_calls (serve w b cache).2 = []
  ∧ posts (serve w b cache).2 = []
  ∧ cache_adds (serve w b cache).2 = [].
Proof.
  intros Hf. serve_cases w b cache; cbn; try done.
Qed.

(** An event that reaches the agent has left its fingerprint in the set. *)
Lemma serve_forwarded w b cache :
  agent_calls (serve w b cache).2 ≠ [] →
  (fingerprint b ∉ cache) ∧ fingerprint b ∈ (serve w b cache).1.
Proof.
  serve_cases w b cache; cbn; try done.
  intros _. split; [done | set_solver].
Qed.

Lemma forwarded_with_bound ins : ∀ cache f,
  one_window ins →
  (length (forwarded_with f (run cache ins).1)
   ≤ if decide (f ∈ cache) then 0 else 1)%nat.
Proof.
  induction ins as [|[w b|] ins IH]; intros cache f Hw; cbn.
  - destruct (decide _); cbn; lia.
  - inversion Hw as [|? ? _ Hw']; subst.
    pose proof (serve_forwarded w b cache) as Hfw.
    pose proof (serve_cache_mono w b cache) as Hm.
    destruct (serve w b cache) as [cache1 tr]. cbn in Hfw, Hm.
    specialize (IH cache1 f Hw').
    destruct (run cache1 ins) as [outs cache2]. cbn [fst snd] in *.
    unfold forwarded_with in *. rewrite filter_cons. cbn [fst snd].
    destruct (decide (fingerprint b = f ∧ agent_calls tr ≠ [])) as [[Hf Hc]|Hn].
    + subst f. pose proof (Hfw Hc) as [Hnot Hin].
      rewrite decide_True in IH by exact Hin.
      rewrite decide_False by exact Hnot. cbn. lia.
    + destruct (decide (f ∈ cache)) as [Hin|Hnot].
      * assert (f ∈ cache1) as Hin1 by (apply Hm, Hin).
        rewrite decide_True in IH by exact Hin1. exact IH.
      * destruct (decide (f ∈ cache1)); lia.
  - inversion Hw; subst. congruence.
Qed.

(** ** Properties of the route *)

(** C5. A request whose [type] is the verification marker is answered with
    the challenge it sent, whatever else it carries and whatever the set
    holds; the set is left as it was and the response is the only effect: no
    insertion, no agent call, no post. *)
Theorem verification_echoes_challenge w b cache :
  type b = Some (str "url_verification") →
  serve w b cache
  = (cache, [respond {| code := 200; payload := json_challenge (challenge b) |}]).
Proof.
  intros Ht. apply serve_verification. unfold is_verification. rewrite Ht.
  apply bool_decide_eq_true_2. reflexivity.
Qed.

(** C6. An event with [bot_id] set never reaches the agent, whatever its
    text, and leaves no trace in the set of processed events: the set is
    unchanged, nothing is inserted, nothing is posted. *)
Theorem bot_event_never_forwarded w b cache :
  is_bot b = true →
  (serve w b cache).1 = cache
  ∧ agent_calls (serve w b cache).2 = []
  ∧ posts (serve w b cache).2 = []
  ∧ cache_adds (serve w b cache).2 = [].
Proof.
  intros Hbot. destruct (is_verification b) eqn:Hv.
  - rewrite (serve_verification w b cache Hv). done.
  - rewrite (serve_bot w b cache Hv Hbot). done.
Qed.

(** C3. Among the deliveries of one window that share a fingerprint, at most
    one reaches the agent.  An event whose fingerprint is in the set changes
    nothing and neither calls the agent nor posts; the insertion comes before
    any work is handed to a collaborator; the timer empties the set, every
    [EVENT_EXPIRY_MS] = 300000 ms. *)
Theorem at_most_one_forwarded_per_fingerprint cache ins f :
  one_window ins →
  (length (forwarded_with f (run cache ins).1) ≤ 1)%nat
  ∧ (∀ w b, fingerprint b ∈ cache →
       (serve w b cache).1 = cache
       ∧ agent_calls (serve w b cache).2 = []
       ∧ posts (serve w b cache).2 = [])
  ∧ (∀ w b pre e post,
       (serve w b cache).2 = pre ++ e :: post → asynchronous e →
       cache_add (fingerprint b) ∈ pre)
  ∧ (∀ w b, agent_calls (serve w b cache).2 ≠ [] → fingerprint b ∈ (serve w b cache).1)
  ∧ on_timer cache = ∅
  ∧ timer_interval = 300000.
Proof.
  intros Hw. split; [|split; [|split; [|split]]].
  - pose proof (forwarded_with_bound ins cache f Hw) as H.
    destruct (decide (f ∈ cache)); lia.
  - intros w b Hf. destruct (serve_cached w b cache Hf) as (?&?&?&?). done.
  - intros w b pre e post. serve_cases w b cache; cbn [snd].
    + intros Heq He. destruct pre as [|? [|? ?]]; cbn in Heq; simplify_eq; cbn in He; done.
    + intros Heq He. destruct pre as [|? [|? ?]]; cbn in Heq; simplify_eq; cbn in He; done.
    + intros Heq He. destruct pre as [|? [|? [|? ?]]]; cbn in Heq; simplify_eq; cbn in He; done.
    + intros Heq He. destruct pre as [|? pre]; cbn in Heq; simplify_eq; [cbn in He; done|].
      apply list_elem_of_here.
  - intros w b Hc. apply (serve_forwarded w b cache Hc).
  - done.
Qed.

Lemma serve_gate_inserts w b cache :
  is_verification b = false → is_bot b = false →
  fingerprint b ∈ (serve w b cache).1.
Proof.
  intros Hv Hb. destruct (decide (fingerprint b ∈ cache)) as [Hin|Hin].
  - rewrite (serve_duplicate w b cache Hv Hb Hin). exact Hin.
  - rewrite (serve_fresh w b cache Hv Hb Hin). cbn. set_solver.
Qed.

(** A later event of the window with a fingerprint that went through the
    gate is discarded. *)
Lemma later_duplicate_discarded w b cache ins w' b' :
  is_verification b = false → is_bot b = false → one_window ins →
  is_verification b' = false → fingerprint b' = fingerprint b →
  let cache' := (run (serve w b cache).1 ins).2 in
  (serve w' b' cache').1 = cache'
  ∧ agent_calls (serve w' b' cache').2 = []
  ∧ posts (serve w' b' cache').2 = []
  ∧ responses (serve w' b' cache').2 = [ack]
  ∧ (is_bot b' = false →
     (serve w' b' cache').2
     = [console_log (str "Skipping duplicate event: " ++ fingerprint b'); respond ack]).
Proof.
  intros Hv Hb Hw Hv' Hf cache'.
  assert (fingerprint b' ∈ cache') as Hin.
  { rewrite Hf. apply (run_cache_mono ins _ Hw), serve_gate_inserts; assumption. }
  destruct (is_bot b') eqn:Hb'.
  - rewrite (serve_bot w' b' cache' Hv' Hb'). done.
  - rewrite (serve_duplicate w' b' cache' Hv' Hb' Hin). done.
Qed.

(** C9. A non-bot event whose fingerprint is not in the set inserts it as
    its first effect, before its type and text are looked at: an event then
    dropped for its type or for having no text has still consumed it, and a
    later event of the window with the same fingerprint is discarded as a
    duplicate, whatever text it carries. *)
Theorem fingerprint_consumed_before_checks w b cache :
  is_verification b = false → is_bot b = false → fingerprint b ∉ cache →
  (∃ tr, (serve w b cache).2 = cache_add (fingerprint b) :: tr)
  ∧ fingerprint b ∈ (serve w b cache).1
  ∧ (match event b with Some ev => eligible ev = false | None => True end →
     (serve w b cache).2 = [cache_add (fingerprint b); respond ack])
  ∧ (∀ ins w' b',
       one_window ins → is_verification b' = false →
       fingerprint b' = fingerprint b →
       let cache' := (run (serve w b cache).1 ins).2 in
       (serve w' b' cache').1 = cache'
       ∧ agent_calls (serve w' b' cache').2 = []
       ∧ posts (serve w' b' cache').2 = []
       ∧ responses (serve w' b' cache').2 = [ack]
       ∧ (is_bot b' = false →
          (serve w' b' cache').2
          = [console_log (str "Skipping duplicate event: " ++ fingerprint b');
             respond ack])).
Proof.
  intros Hv Hb Hin. split; [|split; [|split]].
  - rewrite (serve_fresh w b cache Hv Hb Hin). eauto.
  - apply serve_gate_inserts; assumption.
  - intros Hdrop. rewrite (serve_fresh w b cache Hv Hb Hin). cbn [snd].
    unfold after_gate. destruct (event b) as [ev|]; [rewrite Hdrop|]; reflexivity.
  - intros ins w' b' Hw Hv' Hf.
    apply later_duplicate_discarded; assumption.
Qed.

Lemma eventId_without_id (e : option Event.t) :
  e?.Event.client_msg_id = None → e?.Event.ts = None →
  eventId e = str "undefined" ++ str "_" ++ template e?.Event.channel.
Proof. intros H1 H2. unfold eventId. rewrite H1, H2. reflexivity. Qed.

(** C10, as the code has it. Two events that went past the handshake check
    and carry neither [client_msg_id] nor [ts] have the fingerprint
    ["undefined_" + channel]; when the first of them is not a bot's, the second one in
    the same channel and window is not forwarded: nothing is added to the
    set, the agent is not called, nothing is posted, and unless it is a
    bot's it is logged as a duplicate. *)
Theorem events_without_id_collide w1 w2 b1 b2 cache ins :
  is_verification b1 = false → is_bot b1 = false →
  is_verification b2 = false →
  lacks_id b1 → lacks_id b2 →
  (event b2)?.Event.channel = (event b1)?.Event.channel →
  one_window ins →
  fingerprint b1 = str "undefined" ++ str "_" ++ template (event b1)?.Event.channel
  ∧ fingerprint b2 = fingerprint b1
  ∧ (let cache' := (run (serve w1 b1 cache).1 ins).2 in
     (serve w2 b2 cache').1 = cache'
     ∧ agent_calls (serve w2 b2 cache').2 = []
     ∧ posts (serve w2 b2 cache').2 = []
     ∧ responses (serve w2 b2 cache').2 = [ack]
     ∧ (is_bot b2 = false →
        (serve w2 b2 cache').2
        = [console_log (str "Skipping duplicate event: " ++ fingerprint b2);
           respond ack])).
Proof.
  intros Hv1 Hb1 Hv2 [Hc1 Ht1] [Hc2 Ht2] Hch Hw.
  assert (fingerprint b1
          = str "undefined" ++ str "_" ++ template (event b1)?.Event.channel) as E1
    by (apply eventId_without_id; assumption).
  assert (fingerprint b2 = fingerprint b1) as E2.
  { rewrite E1, <- Hch. apply eventId_without_id; assumption. }
  split; [exact E1|]. split; [exact E2|].
  apply later_duplicate_discarded; assumption.
Qed.

(** C10, counterexample. The first event is a bot's: it is dropped before
    the set is touched, so the second one, with the same fingerprint
    ["undefined_C1"], reaches the agent. *)
Lemma event_without_id_after_bot_is_forwarded :
  lacks_id bot_without_id ∧ lacks_id person_without_id
  ∧ fingerprint bot_without_id = str "undefined_C1"
  ∧ fingerprint person_without_id = str "undefined_C1"
  ∧ (serve sample_world bot_without_id ∅).1 = ∅
  ∧ agent_calls
      (serve sample_world person_without_id (serve sample_world bot_without_id ∅).1).2
    = [str "unlock my account"].
Proof.
  assert ((serve sample_world bot_without_id ∅).1 = ∅) as E
    by (rewrite serve_bot; reflexivity).
  repeat split; try reflexivity; exact E.
Qed.

Lemma after_gate_settled w b :
  (∀ t, agent_call t ∈ after_gate w b →
        agent_settled (agent_generate w t) ∈ after_gate w b)
  ∧ (∀ r, fetch_call r ∈ after_gate w b →
          fetch_settled (slack_fetch w r) ∈ after_gate w b).
Proof.
  unfold after_gate, downstream.
  destruct (event b) as [ev|]; [|split; intros ? H; inversion H].
  destruct (eligible ev); [|split; intros ? H; inversion H].
  cbv zeta.
  destruct (agent_generate w (message_text ev)) as [result_text|] eqn:Ha.
  - destruct (slack_fetch w _) eqn:Hf; cbn [app]; split; intros x Hx;
      repeat (apply elem_of_cons in Hx as [Hx|Hx]; [simplify_eq|]);
      try (by inversion Hx); rewrite ?Ha, ?Hf; set_solver.
  - cbn [app]; split; intros x Hx;
      repeat (apply elem_of_cons in Hx as [Hx|Hx]; [simplify_eq|]);
      try (by inversion Hx); rewrite ?Ha; set_solver.
Qed.

Lemma after_gate_idle w b :
  agent_calls (after_gate w b) = [] → after_gate w b = [].
Proof.
  rewrite after_gate_agent_calls. unfold after_gate.
  destruct (event b) as [ev|]; [|done]. destruct (eligible ev); done.
Qed.

(** C1, as the code has it. A request that is not the handshake is answered
    exactly once, with the empty 200 acknowledgment, and the answer is the
    last effect of the request: every call of the agent and every post made
    for the event has settled before it.  Only an event that is not forwarded
    (no agent call) is acknowledged with nothing awaited. *)
Theorem ack_is_sent_last w b cache :
  is_verification b = false →
  ∃ tr, (serve w b cache).2 = tr ++ [respond ack]
        ∧ responses tr = []
        ∧ (∀ t, agent_call t ∈ tr → agent_settled (agent_generate w t) ∈ tr)
        ∧ (∀ r, fetch_call r ∈ tr → fetch_settled (slack_fetch w r) ∈ tr)
        ∧ (agent_calls tr = [] → ack_does_not_wait (serve w b cache).2).
Proof.
  intros Hv. destruct (is_bot b) eqn:Hb.
  { rewrite (serve_bot w b cache Hv Hb). exists []. cbn.
    repeat split; try (intros ? H; by inversion H).
    intros _ i j r e Hi Hj He.
    destruct j as [|j]; cbn in Hj; simplify_eq; cbn in He; done. }
  destruct (decide (fingerprint b ∈ cache)) as [Hin|Hin].
  { rewrite (serve_duplicate w b cache Hv Hb Hin).
    exists [console_log (str "Skipping duplicate event: " ++ fingerprint b)].
    cbn [snd]. repeat split; try (intros ? H; apply elem_of_cons in H as [H|H];
                         [discriminate | by inversion H]).
    intros _ i j r e Hi Hj He.
    destruct j as [|[|j]]; cbn in Hj; simplify_eq; cbn in He; done. }
  rewrite (serve_fresh w b cache Hv Hb Hin). cbn [snd].
  exists (cache_add (fingerprint b) :: after_gate w b).
  destruct (after_gate_settled w b) as [Ha Hf].
  split; [reflexivity|]. split; [|split; [|split]].
  - cbn. apply after_gate_responses.
  - intros t Ht. apply elem_of_cons in Ht as [Ht|Ht]; [discriminate|].
    apply elem_of_cons. right. exact (Ha t Ht).
  - intros r Hr. apply elem_of_cons in Hr as [Hr|Hr]; [discriminate|].
    apply elem_of_cons. right. exact (Hf r Hr).
  - cbn. intros Hidle. rewrite (after_gate_idle w b Hidle).
    intros i j r e Hi Hj He.
    destruct j as [|[|j]]; cbn in Hj; simplify_eq; cbn in He; done.
Qed.

(** C1, counterexample. For the message of the end-to-end scenario the
    agent's promise settles at position 3 of the trace, the post at
    position 5, and the response is sent at position 6. *)
Lemma ack_waits_for_agent_and_post :
  let tr := (serve sample_world sample_message ∅).2 in
  tr !! 1%nat = Some (console_log (str "Processing message: " ++ [34]
                                   ++ str "help me reset my password" ++ [34]))
  ∧ tr !! 2%nat = Some (agent_call (str "help me reset my password"))
  ∧ tr !! 3%nat = Some (agent_settled (Some (str "On it: help me reset my password")))
  ∧ tr !! 5%nat = Some (fetch_settled true)
  ∧ tr !! 6%nat = Some (respond ack)
  ∧ ¬ ack_does_not_wait tr.
Proof.
  cbv zeta. repeat split; try reflexivity.
  intros H.
  specialize (H 6%nat 3%nat ack
                (agent_settled (Some (str "On it: help me reset my password")))
                eq_refl eq_refl I).
  lia.
Qed.

Lemma replace_mentions_leading ids body :
  ids ≠ [] → Forall (fun c => is_id_char c = true) ids → LT ∉ body →
  trim (replace_mentions (LT :: AT :: ids ++ GT :: body)) = trim body.
Proof.
  intros Hne Hids Hlt.
  rewrite (replace_mentions_token _ _ (mention_at_token ids body Hne Hids)).
  rewrite <- (take_drop_while is_space body) at 2.
  rewrite drop_token, replace_mentions_plain; [apply trim_drop_while|].
  intros Hin. apply Hlt. rewrite <- (take_drop_while is_space body).
  apply elem_of_app. by right.
Qed.

Lemma agent_calls_app tr1 tr2 :
  agent_calls (tr1 ++ tr2) = agent_calls tr1 ++ agent_calls tr2.
Proof. apply omap_app. Qed.

Lemma serve_mention w b ev t cache :
  is_verification b = false → is_bot b = false → fingerprint b ∉ cache →
  event b = Some ev → Event.type ev = Some (str "app_mention") →
  Event.text ev = Some t → t ≠ [] →
  agent_calls (serve w b cache).2 = [trim (replace_mentions t)].
Proof.
  intros Hv Hb Hin Hev Hty Htx Hne.
  rewrite (serve_fresh w b cache Hv Hb Hin). cbn [snd].
  change (agent_calls (cache_add (fingerprint b) :: after_gate w b ++ [respond ack]))
    with (agent_calls (after_gate w b ++ [respond ack])).
  rewrite agent_calls_app, after_gate_agent_calls, Hev.
  unfold eligible, message_text, text_of. rewrite Hty, Htx.
  destruct t; [done|]. reflexivity.
Qed.

(** C4, as the code has it. The text handed to the agent for a mention is
    the original text with every mention token [<@ID>] ([ID] one or more of
    [A-Z], [0-9]) and the white space after it removed, wherever the token
    stands, and then trimmed at both ends.  When the text is one leading token
    followed by a body without [<], that is the trimmed body; ["<@U123ABC>
    reset my password"] gives ["reset my password"]. *)
Theorem mention_text_forwarded w b ev t cache :
  is_verification b = false → is_bot b = false → fingerprint b ∉ cache →
  event b = Some ev → Event.type ev = Some (str "app_mention") →
  Event.text ev = Some t → t ≠ [] →
  agent_calls (serve w b cache).2 = [trim (replace_mentions t)]
  ∧ mentions_removed t (replace_mentions t)
  ∧ (∀ out, mentions_removed t out → out = replace_mentions t)
  ∧ (∀ ids body,
       t = LT :: AT :: ids ++ GT :: body →
       ids ≠ [] → Forall (fun c => is_id_char c = true) ids → LT ∉ body →
       agent_calls (serve w b cache).2 = [trim body])
  ∧ (t = str "<@U123ABC> reset my password" →
     agent_calls (serve w b cache).2 = [str "reset my password"]).
Proof.
  intros Hv Hb Hin Hev Hty Htx Hne.
  pose proof (serve_mention w b ev t cache Hv Hb Hin Hev Hty Htx Hne) as Hcall.
  split; [exact Hcall|]. split; [apply replace_mentions_sound|].
  split; [apply replace_mentions_complete|]. split.
  - intros ids body -> Hids1 Hids2 Hlt. rewrite Hcall.
    rewrite replace_mentions_leading; done.
  - intros ->. rewrite Hcall. reflexivity.
Qed.

(** C4, counterexample. A second mention, not at the start of the text, is
    removed as well: the agent receives ["ask to reset"], where taking off
    the leading token only would leave ["ask <@U456DEF> to reset"]. *)
Lemma inner_mention_is_removed_too :
  (event two_mentions)?.Event.text = Some (str "<@U123ABC> ask <@U456DEF> to reset")
  ∧ agent_calls (serve sample_world two_mentions ∅).2 = [str "ask to reset"]
  ∧ leading_mention_removed (str "<@U123ABC> ask <@U456DEF> to reset")
    = str "ask <@U456DEF> to reset".
Proof. repeat split; reflexivity. Qed.

(** ** The Okta tools *)

Lemma starts_with_app sub rest : starts_with sub (sub ++ rest) = true.
Proof.
  induction sub as [|c sub IH]; cbn; [by destruct rest|].
  rewrite bool_decide_eq_true_2 by done. exact IH.
Qed.

Lemma includes_app sub pre post : includes sub (pre ++ sub ++ post) = true.
Proof.
  induction pre as [|c pre IH]; cbn [app].
  - destruct (sub ++ post) eqn:E; cbn; rewrite <- ?E, starts_with_app; done.
  - cbn. rewrite IH. apply orb_true_r.
Qed.

Lemma includes_suffix label body : includes body (label ++ body) = true.
Proof. rewrite <- (app_nil_r body) at 2. apply includes_app. Qed.

Section OktaProperties.
Import Okta.
Variable encodeURIComponent : jsstring -> option jsstring.
Variable toLowerCase : jsstring -> jsstring.
Variable env : Env.

Lemma find_first {A} (f : A → bool) (l : list A) (x : A) :
  find f l = Some x
  ↔ ∃ pre post, l = pre ++ x :: post ∧ f x = true ∧ Forall (fun y => f y = false) pre.
Proof.
  induction l as [|a l IH]; cbn.
  - split; [done|]. intros ([|? ?] & post & ? & _); done.
  - destruct (f a) eqn:E.
    + split.
      * intros [= ->]. exists [], l. done.
      * intros ([|b pre] & post & Hl & Hx & Hpre); cbn in Hl; simplify_eq; [done|].
        inversion Hpre; congruence.
    + rewrite IH. split.
      * intros (pre & post & -> & Hx & Hpre). exists (a :: pre), post.
        repeat split; [done|]. constructor; assumption.
      * intros ([|b pre] & post & Hl & Hx & Hpre); cbn in Hl; simplify_eq; [congruence|].
        inversion Hpre; subst. exists pre, post. done.
Qed.

Lemma find_absent {A} (f : A → bool) (l : list A) :
  find f l = None ↔ Forall (fun y => f y = false) l.
Proof.
  induction l as [|a l IH]; cbn; [done|].
  destruct (f a) eqn:E.
  - split; [done|]. inversion 1; congruence.
  - rewrite IH. split; [by constructor | by inversion 1].
Qed.

Lemma findGroupByName_found (fetch : Fetch (list Group)) groupName query res groups :
  encodeURIComponent groupName = Some query →
  fetch (groups_request env query) = Some res →
  ok res = true → json res = Some groups →
  findGroupByName encodeURIComponent toLowerCase env fetch groupName
  = Return (find (fun g => bool_decide
                    (toLowerCase (name (profile g)) = toLowerCase groupName)) groups).
Proof.
  intros Hq Hf Hok Hj. unfold findGroupByName. rewrite Hq, Hf, Hok, Hj. reflexivity.
Qed.
End OktaProperties.

Lemma or_null_truthy u : js_truthy u = true → or_null (Some u) = u.
Proof. intros H. cbn. by rewrite H. Qed.

Lemma or_null_absent v :
  or_null v = JNull ↔ match v with Some u => js_truthy u = false | None => True end.
Proof.
  destruct v as [u|]; cbn; [|done].
  destruct (js_truthy u) eqn:E; [|done]. split; [|done]. intros ->. done.
Qed.

Lemma findUserByEmail_success enc env (fetch : Okta.Fetch value) email filter res users :
  enc (str "profile.email eq " ++ [34] ++ email ++ [34]) = Some filter →
  fetch (Okta.users_request env filter) = Some res →
  Okta.ok res = true → Okta.json res = Some users →
  Okta.findUserByEmail enc env fetch email
  = if found_count_throws users then Throw TypeError
    else Return (or_null (index0 users)).
Proof.
  intros Hq Hf Hok Hj. unfold Okta.findUserByEmail. rewrite Hq, Hf, Hok, Hj. reflexivity.
Qed.

(** C8. Against a provider that answers the filter query with no user,
    [findUserByEmail] returns the absent user ([null]) and raises nothing;
    against one that answers with several users it returns the first: the
    result is [users[0] || null], and a user is an object, which is truthy. *)
Theorem findUserByEmail_first_or_absent enc env
    (fetch : Okta.Fetch value) email filter res users :
  enc (str "profile.email eq " ++ [34] ++ email ++ [34]) = Some filter →
  fetch (Okta.users_request env filter) = Some res →
  Okta.ok res = true → Okta.json res = Some (JArr users) →
  Okta.findUserByEmail enc env fetch email = Return (or_null (head users))
  ∧ (users = [] → Okta.findUserByEmail enc env fetch email = Return JNull)
  ∧ (∀ fields rest, users = JObj fields :: rest →
       Okta.findUserByEmail enc env fetch email = Return (JObj fields))
  ∧ (∀ u rest, users = u :: rest →
       Okta.findUserByEmail enc env fetch email
       = Return (if js_truthy u then u else JNull)).
Proof.
  intros Hq Hf Hok Hj.
  pose proof (findUserByEmail_success enc env fetch email filter res (JArr users)
                Hq Hf Hok Hj) as E.
  cbn [found_count_throws] in E.
  assert (index0 (JArr users) = head users) as Hh by (by destruct users).
  rewrite Hh in E.
  split; [exact E|]. split; [|split].
  - intros ->. exact E.
  - intros fields rest ->. exact E.
  - intros u rest ->. exact E.
Qed.

(** C7. [findGroupByName] returns the first candidate whose name equals the
    requested one once both are put in lower case, and the absent group
    ([null]), not a failure, when no candidate does.  For ["developers"] a
    group named ["Developers Team"] is never the result, and a candidate
    named ["Developers"] makes the search succeed. *)
Theorem findGroupByName_exact_name enc lower env
    (fetch : Okta.Fetch (list Okta.Group)) groupName query res groups :
  enc groupName = Some query →
  fetch (Okta.groups_request env query) = Some res →
  Okta.ok res = true → Okta.json res = Some groups →
  let result := Okta.findGroupByName enc lower env fetch groupName in
  let same_name g := lower (Okta.name (Okta.profile g)) = lower groupName in
  (∃ r, result = Return r)
  ∧ (∀ g, result = Return (Some g)
          ↔ ∃ pre post, groups = pre ++ g :: post ∧ same_name g
                        ∧ Forall (fun h => ¬ same_name h) pre)
  ∧ (result = Return None ↔ Forall (fun h => ¬ same_name h) groups)
  ∧ ((∀ s, Okta.is_latin s = true → lower s = Okta.lower_latin s) →
     groupName = str "developers" →
     (∀ g, Okta.name (Okta.profile g) = str "Developers Team" →
           result ≠ Return (Some g))
     ∧ (∀ g, g ∈ groups → Okta.name (Okta.profile g) = str "Developers" →
             ∃ r, result = Return (Some r) ∧ same_name r)
     ∧ (∀ g, groups = [g] → Okta.name (Okta.profile g) = str "Developers Team" →
             result = Return None)).
Proof.
  intros Hq Hf Hok Hj result same_name.
  pose proof (findGroupByName_found enc lower env fetch groupName query res groups
                Hq Hf Hok Hj) as E.
  fold result in E.
  assert (Hfirst : ∀ g, result = Return (Some g)
            ↔ ∃ pre post, groups = pre ++ g :: post ∧ same_name g
                          ∧ Forall (fun h => ¬ same_name h) pre).
  { intros g. rewrite E. split.
    - intros [= H]. apply find_first in H as (pre & post & -> & Hg & Hpre).
      exists pre, post. split; [done|]. split; [by apply bool_decide_eq_true_1 in Hg|].
      eapply Forall_impl; [exact Hpre|]. intros h Hh. by apply bool_decide_eq_false_1 in Hh.
    - intros (pre & post & -> & Hg & Hpre). f_equal. apply find_first.
      exists pre, post. split; [done|]. split; [by apply bool_decide_eq_true_2|].
      eapply Forall_impl; [exact Hpre|]. intros h Hh. by apply bool_decide_eq_false_2. }
  assert (Hnone : result = Return None ↔ Forall (fun h => ¬ same_name h) groups).
  { rewrite E. split.
    - intros [= H]. apply find_absent in H.
      eapply Forall_impl; [exact H|]. intros h Hh. by apply bool_decide_eq_false_1 in Hh.
    - intros H. f_equal. apply find_absent.
      eapply Forall_impl; [exact H|]. intros h Hh. by apply bool_decide_eq_false_2. }
  split; [rewrite E; eauto|]. split; [exact Hfirst|]. split; [exact Hnone|].
  intros Hlatin ->.
  assert (lower (str "developers") = str "developers") as Hd by (by rewrite Hlatin).
  assert (lower (str "Developers") = str "developers") as HD by (by rewrite Hlatin).
  assert (lower (str "Developers Team") = str "developers team") as HT by (by rewrite Hlatin).
  split; [|split].
  - intros g Hname Hres. apply Hfirst in Hres as (_ & _ & _ & Hsame & _).
    unfold same_name in Hsame. rewrite Hname, HT, Hd in Hsame. discriminate.
  - intros g Hin Hname.
    destruct (find (fun g => bool_decide
                (lower (Okta.name (Okta.profile g)) = lower (str "developers"))) groups)
      as [r|] eqn:Hfind.
    + exists r. split; [exact E|].
      apply find_some in Hfind as [_ Hr]. by apply bool_decide_eq_true_1 in Hr.
    + exfalso. apply find_absent in Hfind.
      rewrite Forall_forall in Hfind. specialize (Hfind g Hin).
      apply bool_decide_eq_false_1 in Hfind. apply Hfind. by rewrite Hname, HD, Hd.
  - intros g -> Hname. apply Hnone. constructor; [|constructor].
    unfold same_name. rewrite Hname, HT, Hd. discriminate.
Qed.

(** C2, as the code has it. When Okta answers a non-success status,
    [lockUser], [unlockUser], [addUserToGroup] and [resetMFA] each raise an
    [Error] whose message is the tool's own label followed by the body text
    of the response; the message holds the body, the status code is not put
    into it. *)
Theorem mutating_tools_raise_with_body {A} env (fetch : Okta.Fetch A) userId groupId res :
  Okta.ok res = false →
  (fetch (Okta.lifecycle env userId (str "suspend")) = Some res →
   Okta.lockUser env fetch userId
   = Throw (Error (str "Failed to lock user: " ++ Okta.text res)))
  ∧ (fetch (Okta.lifecycle env userId (str "unsuspend")) = Some res →
     Okta.unlockUser env fetch userId
     = Throw (Error (str "Failed to unlock user: " ++ Okta.text res)))
  ∧ (fetch (Okta.membership_request env userId groupId) = Some res →
     Okta.addUserToGroup env fetch userId groupId
     = Throw (Error (str "Failed to add user to group: " ++ Okta.text res)))
  ∧ (fetch (Okta.lifecycle env userId (str "reset_factors")) = Some res →
     Okta.resetMFA env fetch userId
     = Throw (Error (str "Failed to reset MFA: " ++ Okta.text res)))
  ∧ (∀ label, includes (Okta.text res) (label ++ Okta.text res) = true).
Proof.
  intros Hok. repeat split.
  - intros Hf. unfold Okta.lockUser. rewrite Hf, Hok. reflexivity.
  - intros Hf. unfold Okta.unlockUser. rewrite Hf, Hok. reflexivity.
  - intros Hf. unfold Okta.addUserToGroup. rewrite Hf, Hok. reflexivity.
  - intros Hf. unfold Okta.resetMFA. rewrite Hf, Hok. reflexivity.
  - intros label. apply includes_suffix.
Qed.

(** C2, counterexample. On a 404 [lockUser] raises an error whose message
    does not hold the status code, and [resetPassword] raises nothing: it
    returns a result without a URL. *)
Lemma status_code_missing_and_reset_silent :
  Okta.ok not_found = false
  ∧ Okta.lockUser sample_env (Okta.answering not_found) (str "00u1")
    = Throw (Error (str "Failed to lock user: " ++ Okta.text not_found))
  ∧ includes (decimal 404) (str "Failed to lock user: " ++ Okta.text not_found) = false
  ∧ ¬ Okta.carries_status_and_body
        (Okta.lockUser sample_env (Okta.answering not_found) (str "00u1")) not_found
  ∧ Okta.resetPassword sample_env (Okta.answering not_found) (str "00u1")
    = Return {| Okta.resetPasswordUrl := None |}
  ∧ ¬ Okta.carries_status_and_body
        (Okta.resetPassword sample_env (Okta.answering not_found) (str "00u1")) not_found.
Proof.
  repeat split; try reflexivity.
  - intros (m & Hm & Hs & _). injection Hm as <-. vm_compute in Hs. discriminate.
  - intros (m & Hm & _). discriminate.
Qed.

(** ** The properties at the sample inputs *)

Example replace_mentions_samples :
  trim (replace_mentions (str "<@U123ABC> reset my password")) = str "reset my password"
  ∧ trim (replace_mentions (str "<@U123ABC> ask <@U456DEF>   to reset ")) = str "ask to reset"
  ∧ trim (replace_mentions (str " hi <@u123> <@> <@A>")) = str "hi <@u123> <@>".
Proof. repeat split; reflexivity. Qed.

Lemma one_window_nil : one_window [].
Proof. constructor. Defined.

Lemma one_window_deliver w b ins : one_window ins → one_window (Deliver w b :: ins).
Proof. intros H. constructor; [discriminate | exact H]. Defined.

Lemma verification_echoes_challenge_witness :
  type sample_handshake = Some (str "url_verification")
  ∧ serve sample_world sample_handshake {[ str "1.1_C1" ]}
    = ({[ str "1.1_C1" ]},
       [respond {| code := 200;
                   payload := json_challenge
                     (Some (str "3eZbrw1aBm2rZgRNFdxV2595E9CY3gmdALWMmHkvFXO7tYXAYM8P")) |}]).
Proof.
  split; [reflexivity|].
  apply (verification_echoes_challenge sample_world sample_handshake). reflexivity.
Defined.

Lemma bot_event_never_forwarded_witness :
  is_bot bot_without_id = true
  ∧ (serve sample_world bot_without_id ∅).1 = ∅
  ∧ agent_calls (serve sample_world bot_without_id ∅).2 = []
  ∧ posts (serve sample_world bot_without_id ∅).2 = []
  ∧ cache_adds (serve sample_world bot_without_id ∅).2 = [].
Proof.
  split; [reflexivity|].
  apply (bot_event_never_forwarded sample_world bot_without_id ∅). reflexivity.
Defined.

(** The end-to-end scenario: the same event delivered twice in a window. *)
Lemma at_most_one_forwarded_per_fingerprint_witness :
  one_window [Deliver sample_world sample_message; Deliver sample_world sample_message]
  ∧ (length (forwarded_with (str "1.1_C1")
               (run ∅ [Deliver sample_world sample_message;
                       Deliver sample_world sample_message]).1) ≤ 1)%nat.
Proof.
  assert (one_window [Deliver sample_world sample_message;
                      Deliver sample_world sample_message]) as Hw
    by (apply one_window_deliver, one_window_deliver, one_window_nil).
  split; [exact Hw|].
  exact (proj1 (at_most_one_forwarded_per_fingerprint ∅ _ (str "1.1_C1") Hw)).
Defined.

Lemma fingerprint_consumed_before_checks_witness :
  is_verification sample_message = false
  ∧ is_bot sample_message = false
  ∧ (fingerprint sample_message ∉ (∅ : gset jsstring))
  ∧ fingerprint sample_message ∈ (serve sample_world sample_message ∅).1.
Proof.
  split; [reflexivity|]. split; [reflexivity|]. split; [apply not_elem_of_empty|].
  exact (proj1 (proj2 (fingerprint_consumed_before_checks sample_world sample_message ∅
                         eq_refl eq_refl (not_elem_of_empty _)))).
Defined.

Lemma events_without_id_collide_witness :
  is_verification person_without_id = false
  ∧ is_bot person_without_id = false
  ∧ lacks_id person_without_id
  ∧ one_window []
  ∧ fingerprint person_without_id
    = str "undefined" ++ str "_" ++ template (event person_without_id)?.Event.channel.
Proof.
  split; [reflexivity|]. split; [reflexivity|].
  split; [split; reflexivity|]. split; [exact one_window_nil|].
  exact (proj1 (events_without_id_collide sample_world sample_world
                  person_without_id person_without_id ∅ []
                  eq_refl eq_refl eq_refl (conj eq_refl eq_refl) (conj eq_refl eq_refl)
                  eq_refl one_window_nil)).
Defined.

Lemma ack_is_sent_last_witness :
  is_verification sample_message = false
  ∧ ∃ tr, (serve sample_world sample_message ∅).2 = tr ++ [respond ack]
          ∧ responses tr = [].
Proof.
  split; [reflexivity|].
  destruct (ack_is_sent_last sample_world sample_message ∅ eq_refl)
    as (tr & Htr & Hresp & _).
  exists tr. split; assumption.
Defined.

Lemma mention_text_forwarded_witness :
  (fingerprint sample_mention ∉ (∅ : gset jsstring))
  ∧ str "<@U123ABC> reset my password" ≠ []
  ∧ agent_calls (serve sample_world sample_mention ∅).2
    = [trim (replace_mentions (str "<@U123ABC> reset my password"))].
Proof.
  split; [apply not_elem_of_empty|]. split; [discriminate|].
  refine (proj1 (mention_text_forwarded sample_world sample_mention _ _ ∅
                   eq_refl eq_refl (not_elem_of_empty _) eq_refl eq_refl eq_refl _)).
  discriminate.
Defined.

Lemma findUserByEmail_first_or_absent_witness :
  Okta.ok (users_found (JArr [user_object "00u1" "john@x.com";
                              user_object "00u2" "john@x.com"])) = true
  ∧ Okta.findUserByEmail Some sample_env
      (Okta.answering (users_found (JArr [user_object "00u1" "john@x.com";
                                          user_object "00u2" "john@x.com"])))
      (str "john@x.com")
    = Return (user_object "00u1" "john@x.com").
Proof.
  split; [reflexivity|].
  exact (proj1 (findUserByEmail_first_or_absent Some sample_env
                  (Okta.answering
                     (users_found (JArr [user_object "00u1" "john@x.com";
                                         user_object "00u2" "john@x.com"])))
                  (str "john@x.com") _ _ _
                  eq_refl eq_refl eq_refl eq_refl)).
Defined.

Lemma findGroupByName_exact_name_witness :
  Okta.ok (groups_found [group_named "00g1" "Developers Team";
                         group_named "00g2" "Developers"]) = true
  ∧ ∃ r, Okta.findGroupByName Some Okta.lower_latin sample_env
           (Okta.answering (groups_found [group_named "00g1" "Developers Team";
                                          group_named "00g2" "Developers"]))
           (str "developers")
         = Return r.
Proof.
  split; [reflexivity|].
  exact (proj1 (findGroupByName_exact_name Some Okta.lower_latin sample_env
                  (Okta.answering (groups_found [group_named "00g1" "Developers Team";
                                                 group_named "00g2" "Developers"]))
                  (str "developers") _ _ _ eq_refl eq_refl eq_refl eq_refl)).
Defined.

Lemma mutating_tools_raise_with_body_witness :
  Okta.ok not_found = false
  ∧ Okta.lockUser sample_env (Okta.answering not_found) (str "00u1")
    = Throw (Error (str "Failed to lock user: " ++ Okta.text not_found)).
Proof.
  split; [reflexivity|].
  exact (proj1 (mutating_tools_raise_with_body sample_env (Okta.answering not_found)
                  (str "00u1") (str "00g1") not_found eq_refl) eq_refl).
Defined.

(** The two group searches of the specification. *)
Example findGroupByName_developers :
  Okta.findGroupByName Some Okta.lower_latin sample_env
    (Okta.answering (groups_found [group_named "00g1" "Developers Team";
                                   group_named "00g2" "Developers"]))
    (str "developers")
  = Return (Some (group_named "00g2" "Developers"))
  ∧ Okta.findGroupByName Some Okta.lower_latin sample_env
      (Okta.answering (groups_found [group_named "00g1" "Developers Team"]))
      (str "developers")
    = Return None.
Proof. split; reflexivity. Qed.

(** The end-to-end scenario: one agent call and one post to [C1] for the
    first delivery, none for the second. *)
Example end_to_end_scenario :
  let outs := (run ∅ [Deliver sample_world sample_message;
                      Deliver sample_world sample_message]).1 in
  map (fun o => agent_calls o.2) outs = [[str "help me reset my password"]; []]
  ∧ map (fun o => map (fun r => channel <$> body r) (posts o.2)) outs
    = [[Some (Some (str "C1"))]; []].
Proof. split; reflexivity. Qed.


(** ** Further properties of the route *)

Lemma posts_app tr1 tr2 : posts (tr1 ++ tr2) = posts tr1 ++ posts tr2.
Proof. apply omap_app. Qed.

Lemma responses_app tr1 tr2 : responses (tr1 ++ tr2) = responses tr1 ++ responses tr2.
Proof. apply omap_app. Qed.

Lemma after_gate_posts w b :
  posts (after_gate w b)
  = match event b with
    | Some ev =>
        if eligible ev then
          match agent_generate w (message_text ev) with
          | Some result_text => [postMessage w (Event.channel ev) result_text]
          | None => []
          end
        else []
    | None => []
    end.
Proof. after_gate_cases w b. Qed.

Lemma reaches_gate_true b :
  reaches_gate b = true ↔ is_verification b = false ∧ is_bot b = false.
Proof.
  unfold reaches_gate. destruct (is_verification b), (is_bot b); cbn; intuition congruence.
Qed.

Lemma serve_fresh_trace w b cache :
  reaches_gate b = true → fingerprint b ∉ cache →
  (serve w b cache).2 = cache_add (fingerprint b) :: after_gate w b ++ [respond ack].
Proof.
  intros [Hv Hb]%reaches_gate_true Hin. by rewrite (serve_fresh w b cache Hv Hb Hin).
Qed.

Lemma serve_fresh_agent_calls w b cache :
  reaches_gate b = true → fingerprint b ∉ cache →
  agent_calls (serve w b cache).2
  = match event b with
    | Some ev => if eligible ev then [message_text ev] else []
    | None => []
    end.
Proof.
  intros Hg Hin. rewrite (serve_fresh_trace w b cache Hg Hin).
  change (agent_calls (cache_add (fingerprint b) :: after_gate w b ++ [respond ack]))
    with (agent_calls (after_gate w b ++ [respond ack])).
  rewrite agent_calls_app, after_gate_agent_calls. apply app_nil_r.
Qed.

Lemma serve_fresh_posts w b cache :
  reaches_gate b = true → fingerprint b ∉ cache →
  posts (serve w b cache).2 = posts (after_gate w b).
Proof.
  intros Hg Hin. rewrite (serve_fresh_trace w b cache Hg Hin).
  change (posts (cache_add (fingerprint b) :: after_gate w b ++ [respond ack]))
    with (posts (after_gate w b ++ [respond ack])).
  rewrite posts_app. apply app_nil_r.
Qed.

(** X1. When the agent is called.  A request calls the agent at most once,
    and it does so exactly when it is not the handshake, not a bot's, its
    fingerprint is not in the set, and its event is of an accepted type with
    text; the agent then receives the message body of the event. *)
Theorem agent_called_exactly_when w b cache :
  agent_calls (serve w b cache).2
  = if reaches_gate b && bool_decide (fingerprint b ∉ cache)
    then match event b with
         | Some ev => if eligible ev then [message_text ev] else []
         | None => []
         end
    else [].
Proof.
  destruct (reaches_gate b) eqn:Hg; cbn [andb].
  - destruct (decide (fingerprint b ∈ cache)) as [Hin|Hin].
    + rewrite bool_decide_eq_false_2 by (intros H; exact (H Hin)).
      apply (serve_cached w b cache Hin).
    + rewrite bool_decide_eq_true_2 by exact Hin.
      apply serve_fresh_agent_calls; assumption.
  - unfold reaches_gate in Hg. destruct (is_verification b) eqn:Hv.
    + by rewrite (serve_verification w b cache Hv).
    + destruct (is_bot b) eqn:Hb; [|discriminate].
      by rewrite (serve_bot w b cache Hv Hb).
Qed.

(** X3. A plain message is forwarded as it is: its text reaches the agent
    unchanged, mention tokens and surrounding white space included. *)
Theorem plain_message_forwarded_verbatim w b ev t cache :
  reaches_gate b = true → fingerprint b ∉ cache →
  event b = Some ev → Event.type ev = Some (str "message") →
  Event.text ev = Some t → t ≠ [] →
  agent_calls (serve w b cache).2 = [t].
Proof.
  intros Hg Hin Hev Hty Htx Hne.
  rewrite (serve_fresh_agent_calls w b cache Hg Hin), Hev. unfold eligible, message_text, text_of. rewrite Hty, Htx.
  destruct t; [done|]. reflexivity.
Qed.

(** X4. The reply.  When an event is forwarded and the agent answers, the
    handler posts the reply exactly once: the one call of [fetch] among its
    own statements is a POST to Slack's [chat.postMessage], authorised with
    the bot token, whose body holds the channel of the event and the text of
    the agent's result.  (The calls the agent's tools make to Okta happen
    inside [agent.generate] and are not the handler's.) *)
Theorem reply_posted_to_event_channel w b ev cache result_text :
  reaches_gate b = true → fingerprint b ∉ cache →
  event b = Some ev → eligible ev = true →
  agent_generate w (message_text ev) = Some result_text →
  ∃ req, posts (serve w b cache).2 = [req]
         ∧ url req = str "https://slack.com/api/chat.postMessage"
         ∧ method req = str "POST"
         ∧ (str "Authorization", str "Bearer " ++ SLACK_BOT_TOKEN w) ∈ headers req
         ∧ body req = Some {| channel := Event.channel ev; text := result_text |}.
Proof.
  intros Hg Hin Hev Hel Hag.
  exists (postMessage w (Event.channel ev) result_text).
  split; [|repeat split; apply list_elem_of_here].
  rewrite (serve_fresh_posts w b cache Hg Hin), after_gate_posts, Hev, Hel, Hag.
  reflexivity.
Qed.

(** X5. Failures stay inside the request.  On a forwarded event an error is
    logged exactly when the agent's promise or the post's promise rejects;
    when the agent rejects nothing is posted; in every case the request is
    still answered with the empty 200 acknowledgment and its fingerprint
    stays in the set. *)
Theorem downstream_failure_is_contained w b ev cache :
  reaches_gate b = true → fingerprint b ∉ cache →
  event b = Some ev → eligible ev = true →
  (console_error ∈ (serve w b cache).2
   ↔ agent_generate w (message_text ev) = None
     ∨ ∃ result_text,
         agent_generate w (message_text ev) = Some result_text
         ∧ slack_fetch w (postMessage w (Event.channel ev) result_text) = false)
  ∧ (agent_generate w (message_text ev) = None → posts (serve w b cache).2 = [])
  ∧ responses (serve w b cache).2 = [ack]
  ∧ fingerprint b ∈ (serve w b cache).1.
Proof.
  intros Hg Hin Hev Hel.
  pose proof Hg as [Hv Hb]%reaches_gate_true.
  split; [|split; [|split]].
  - rewrite (serve_fresh_trace w b cache Hg Hin).
    unfold after_gate, downstream. rewrite Hev, Hel. cbv zeta.
    destruct (agent_generate w (message_text ev)) as [result_text|] eqn:Hag.
    + destruct (slack_fetch w _) eqn:Hf; cbn [app]; split.
      * intros H. repeat (apply elem_of_cons in H as [H|H]; [discriminate|]).
        by inversion H.
      * intros [|(r & [= <-] & Hr)]; [done|]. congruence.
      * intros _. right. eauto.
      * intros _. set_solver.
    + cbn [app]. split; [by left | intros _; set_solver].
  - intros Hag. rewrite (serve_fresh_posts w b cache Hg Hin), after_gate_posts.
    by rewrite Hev, Hel, Hag.
  - rewrite (serve_fresh_trace w b cache Hg Hin).
    change (responses (cache_add (fingerprint b) :: after_gate w b ++ [respond ack]))
      with (responses (after_gate w b ++ [respond ack])).
    by rewrite responses_app, after_gate_responses.
  - apply serve_gate_inserts; assumption.
Qed.

(** ** Further properties of the set of processed events *)

Lemma serve_cache w b cache :
  (serve w b cache).1
  = if reaches_gate b then {[ fingerprint b ]} ∪ cache else cache.
Proof.
  unfold reaches_gate. serve_cases w b cache; cbn [fst negb andb]; try reflexivity.
  apply set_eq. intros x. rewrite elem_of_union, elem_of_singleton.
  split; [tauto | intros [->|]; done].
Qed.

Lemma run_app cache ins1 ins2 :
  (run cache (ins1 ++ ins2)).2 = (run (run cache ins1).2 ins2).2.
Proof.
  revert cache. induction ins1 as [|[w b|] ins1 IH]; intros cache; cbn.
  - reflexivity.
  - destruct (serve w b cache) as [cache1 tr].
    specialize (IH cache1).
    destruct (run cache1 (ins1 ++ ins2)), (run cache1 ins1). cbn in *. exact IH.
  - apply IH.
Qed.

Lemma run_window_cache ins : ∀ cache,
  one_window ins →
  (run cache ins).2 = list_to_set (gate_fingerprints ins) ∪ cache.
Proof.
  induction ins as [|[w b|] ins IH]; intros cache Hw; cbn.
  - symmetry. apply (left_id_L ∅ (∪)).
  - inversion Hw as [|? ? _ Hw']; subst.
    pose proof (serve_cache w b cache) as Hs.
    destruct (serve w b cache) as [cache1 tr]. cbn [fst] in Hs.
    specialize (IH cache1 Hw').
    destruct (run cache1 ins) as [outs cache2]. cbn [snd] in *.
    rewrite IH, Hs. destruct (reaches_gate b); cbn; [|reflexivity].
    apply set_eq. intros x. rewrite !elem_of_union, elem_of_singleton. tauto.
  - inversion Hw; subst. congruence.
Qed.

(** A request looks at the set only to ask whether its own fingerprint is
    there. *)
Lemma serve_trace_membership w b cache1 cache2 :
  (fingerprint b ∈ cache1 ↔ fingerprint b ∈ cache2) →
  (serve w b cache1).2 = (serve w b cache2).2.
Proof.
  intros Hm. destruct (is_verification b) eqn:Hv.
  { by rewrite !serve_verification. }
  destruct (is_bot b) eqn:Hb.
  { by rewrite !serve_bot. }
  destruct (decide (fingerprint b ∈ cache1)) as [Hin|Hin].
  - rewrite !serve_duplicate; try done. by apply Hm.
  - rewrite !serve_fresh; try done. intros H. by apply Hin, Hm.
Qed.

(** X6. What the set holds.  Within one window the set is what it was at
    the start together with the fingerprints of the deliveries that got past
    the handshake check and the bot filter: nothing else is ever added, and
    nothing is removed. *)
Theorem set_holds_gate_fingerprints cache ins :
  one_window ins →
  ∀ f, f ∈ (run cache ins).2 ↔ f ∈ cache ∨ f ∈ gate_fingerprints ins.
Proof.
  intros Hw f. rewrite (run_window_cache ins cache Hw).
  rewrite elem_of_union, elem_of_list_to_set. tauto.
Qed.

(** X7. The timer forgets everything.  Right after a tick the set is empty,
    whatever was delivered before, so an eligible event is forwarded again
    even when the same event was handled just before the tick. *)
Theorem tick_forgets_history cache ins w b ev :
  reaches_gate b = true → event b = Some ev → eligible ev = true →
  (run cache (ins ++ [Tick])).2 = ∅
  ∧ agent_calls (serve w b (run cache (ins ++ [Deliver w b; Tick])).2).2
    = [message_text ev].
Proof.
  intros Hg Hev Hel. split.
  - rewrite run_app. reflexivity.
  - rewrite run_app.
    assert ((run (run cache ins).2 [Deliver w b; Tick]).2 = ∅) as ->.
    { cbn. by destruct (serve w b _). }
    rewrite (serve_fresh_agent_calls w b ∅ Hg (not_elem_of_empty _)).
    by rewrite Hev, Hel.
Qed.

(** X8. Deliveries with other fingerprints do not matter.  Whatever is
    delivered in between within the window, as long as no delivery has the
    fingerprint of the request, the request does exactly what it would have
    done at the start. *)
Theorem other_fingerprints_do_not_interfere cache ins w b :
  Forall (other_fingerprint (fingerprint b)) ins →
  (serve w b (run cache ins).2).2 = (serve w b cache).2.
Proof.
  intros Hall. apply serve_trace_membership.
  assert (one_window ins) as Hw.
  { eapply Forall_impl; [exact Hall|]. intros [w' b'|]; cbn; [discriminate|done]. }
  rewrite (run_window_cache ins cache Hw), elem_of_union, elem_of_list_to_set.
  split; [|tauto]. intros [Hin|Hin]; [|exact Hin]. exfalso.
  unfold gate_fingerprints in Hin. apply list_elem_of_omap in Hin as (i & Hi & Hf).
  rewrite Forall_forall in Hall. specialize (Hall i Hi).
  destruct i as [w' b'|]; [|done]. cbn in Hall.
  destruct (reaches_gate b'); simplify_eq.
Qed.

Lemma split_at_underscore (a1 a2 b1 b2 : jsstring) :
  UNDERSCORE ∉ a1 → UNDERSCORE ∉ a2 →
  a1 ++ UNDERSCORE :: b1 = a2 ++ UNDERSCORE :: b2 → a1 = a2 ∧ b1 = b2.
Proof.
  revert a2. induction a1 as [|c a1 IH]; intros [|d a2] H1 H2 Heq; cbn in Heq.
  - by simplify_eq.
  - simplify_eq. exfalso. apply H2. by left.
  - simplify_eq. exfalso. apply H1. by left.
  - simplify_eq. destruct (IH a2) as [-> ->]; try done.
    + intros H. apply H1. by right.
    + intros H. apply H2. by right.
Qed.

(** X9. Fingerprints tell events apart.  For two events that each carry an
    identifier ([client_msg_id] when it is a non-empty string, else [ts])
    and a channel, the identifiers holding no underscore, as Slack's do not,
    the fingerprints are equal only when both the identifiers and the
    channels are. *)
Theorem fingerprint_injective_on_keys (e1 e2 : option Event.t) id1 id2 channel1 channel2 :
  identifier e1 = Some id1 → identifier e2 = Some id2 →
  e1?.Event.channel = Some channel1 → e2?.Event.channel = Some channel2 →
  UNDERSCORE ∉ id1 → UNDERSCORE ∉ id2 →
  eventId e1 = eventId e2 ↔ id1 = id2 ∧ channel1 = channel2.
Proof.
  intros Hi1 Hi2 Hc1 Hc2 H1 H2. unfold eventId.
  fold (identifier e1) (identifier e2). rewrite Hi1, Hi2, Hc1, Hc2. cbn [template].
  split.
  - apply split_at_underscore; assumption.
  - intros [-> ->]. reflexivity.
Qed.

(** ** Further properties of the mention rule *)

Lemma drop_while_all (p : N → bool) s :
  Forall (fun c => p c = true) s → drop_while p s = [].
Proof. induction 1 as [|c s Hc _ IH]; cbn; [done|]. by rewrite Hc. Qed.

Lemma drop_while_split (p : N → bool) s :
  ∃ l, s = l ++ drop_while p s ∧ Forall (fun c => p c = true) l.
Proof.
  exists (take_while p s). split; [symmetry; apply take_drop_while | apply take_while_all].
Qed.

(** [trim] takes white space off both ends and nothing else. *)
Lemma trim_split s :
  ∃ l r, s = l ++ trim s ++ r
         ∧ Forall (fun c => is_space c = true) l
         ∧ Forall (fun c => is_space c = true) r.
Proof.
  destruct (drop_while_split is_space s) as (l & Hs & Hl).
  destruct (drop_while_split is_space (rev (drop_while is_space s))) as (r & Hr & Hr').
  exists l, (rev r). split; [|split; [exact Hl | by apply Forall_rev]].
  rewrite Hs at 1. f_equal. unfold trim.
  rewrite <- rev_app_distr, <- Hr. symmetry. apply rev_involutive.
Qed.

Lemma trim_ends s :
  (∀ c m, trim s = c :: m → is_space c = false)
  ∧ (∀ c m, trim s = m ++ [c] → is_space c = false).
Proof.
  split; intros c m Ht.
  - destruct (drop_while_split is_space (rev (drop_while is_space s))) as (r & Hr & _).
    apply (f_equal (@rev N)) in Hr. rewrite rev_involutive, rev_app_distr in Hr.
    fold (trim s) in Hr. rewrite Ht in Hr. cbn in Hr.
    exact (drop_while_head is_space s c _ Hr).
  - unfold trim in Ht. apply (f_equal (@rev N)) in Ht.
    rewrite rev_involutive, rev_app_distr in Ht. cbn in Ht.
    exact (drop_while_head is_space _ c _ Ht).
Qed.

Lemma drop_while_sublist (p : N → bool) s : drop_while p s `sublist_of` s.
Proof.
  destruct (drop_while_split p s) as (l & Hs & _). rewrite Hs at 2.
  by apply sublist_inserts_l.
Qed.

Lemma trim_sublist s : trim s `sublist_of` s.
Proof.
  destruct (trim_split s) as (l & r & Hs & _). rewrite Hs at 2.
  apply sublist_inserts_l, sublist_inserts_r. reflexivity.
Qed.

Lemma replace_mentions_sublist s : replace_mentions s `sublist_of` s.
Proof.
  remember (length s) as n eqn:Hn. revert s Hn.
  induction n as [n IH] using lt_wf_ind. intros s Hn.
  destruct s as [|c s]; [reflexivity|].
  destruct (mention_at (c :: s)) as [k|] eqn:E.
  - rewrite (replace_mentions_token _ _ E).
    destruct (mention_at_inv _ _ E) as (ids & rest & _ & _ & _ & Hk).
    etransitivity; [|apply (sublist_drop _ k)].
    apply (IH (length (drop k (c :: s)))); [|done].
    rewrite length_drop. subst n k. cbn. lia.
  - rewrite (replace_mentions_keep _ _ E). apply sublist_skip.
    apply (IH (length s)); [subst n; cbn; lia | done].
Qed.

(** X10. The message body of a mention.  What the agent receives for a
    mention is made of code units of the original text, in their order:
    nothing is added or rewritten; it neither begins nor ends with white
    space, and it is no longer than the original. *)
Theorem mention_body_shape w b ev t cache :
  reaches_gate b = true → fingerprint b ∉ cache →
  event b = Some ev → Event.type ev = Some (str "app_mention") →
  Event.text ev = Some t → t ≠ [] →
  ∃ m, agent_calls (serve w b cache).2 = [m]
       ∧ m `sublist_of` t
       ∧ (length m ≤ length t)%nat
       ∧ (∀ c m', m = c :: m' → is_space c = false)
       ∧ (∀ c m', m = m' ++ [c] → is_space c = false).
Proof.
  intros Hg Hin Hev Hty Htx Hne.
  exists (trim (replace_mentions t)).
  assert (trim (replace_mentions t) `sublist_of` t) as Hsub.
  { etransitivity; [apply trim_sublist | apply replace_mentions_sublist]. }
  split; [|split; [exact Hsub|split; [by apply sublist_length|apply trim_ends]]].
  rewrite (serve_fresh_agent_calls w b cache Hg Hin), Hev.
  unfold eligible, message_text, text_of. rewrite Hty, Htx.
  destruct t; [done|]. reflexivity.
Qed.

(** X11. The replacement changes a text exactly when a mention token
    occurs in it: a text in which [<@], one or more of [A-Z0-9] and [>]
    never follow each other (an id in lower case, a bare [<@>], an unclosed
    [<@U1]) comes out as it went in. *)
Theorem replace_mentions_fixes_token_free s :
  replace_mentions s = s ↔ ∀ pre suf, s = pre ++ suf → ¬ token_starts suf.
Proof.
  induction s as [|c s IH].
  - split; [|reflexivity]. intros _ pre suf Hs (ids & rest & _ & _ & ->).
    by destruct pre.
  - split.
    + intros Hfix. destruct (mention_at (c :: s)) as [k|] eqn:E.
      { exfalso. pose proof (replace_mentions_sublist (drop k (c :: s))) as Hsub.
        rewrite <- (replace_mentions_token _ _ E), Hfix in Hsub.
        apply sublist_length in Hsub. rewrite length_drop in Hsub.
        destruct (mention_at_inv _ _ E) as (? & ? & _ & _ & _ & ->). cbn in Hsub. lia. }
      rewrite (replace_mentions_keep _ _ E) in Hfix. injection Hfix as Hfix.
      intros [|d pre] suf Hs; cbn in Hs.
      * subst suf. by apply mention_at_None.
      * injection Hs as _ Hs. exact (proj1 IH Hfix pre suf Hs).
    + intros Hfree. rewrite replace_mentions_keep.
      * f_equal. apply IH. intros pre suf ->. apply (Hfree (c :: pre) suf). reflexivity.
      * apply mention_at_None. apply (Hfree [] (c :: s)). reflexivity.
Qed.

(** X12. A mention with nothing but the token.  When the text of a mention
    is a token followed by white space only, the event is still forwarded:
    the agent is called with the empty string. *)
Theorem bare_mention_forwards_empty_text w b ev ids ws cache :
  reaches_gate b = true → fingerprint b ∉ cache →
  event b = Some ev → Event.type ev = Some (str "app_mention") →
  Event.text ev = Some (LT :: AT :: ids ++ GT :: ws) →
  ids ≠ [] → Forall (fun c => is_id_char c = true) ids →
  Forall (fun c => is_space c = true) ws →
  agent_calls (serve w b cache).2 = [[]].
Proof.
  intros Hg Hin Hev Hty Htx Hne Hids Hws.
  rewrite (serve_fresh_agent_calls w b cache Hg Hin), Hev.
  unfold eligible, message_text, text_of. rewrite Hty, Htx. cbn [truthy].
  replace (strict_eq (Some (str "app_mention")) (str "app_mention")) with true
    by reflexivity.
  rewrite orb_true_r. cbn [andb]. f_equal.
  rewrite replace_mentions_leading; try assumption.
  - unfold trim. by rewrite (drop_while_all is_space ws Hws).
  - intros Hlt. rewrite Forall_forall in Hws. by apply Hws in Hlt.
Qed.

(** ** Further properties of the Okta tools *)

(** X13. [findUserByEmail] and errors.  It returns a value only when Okta
    answered with a success status and a body that parses to something
    other than [null]; the value is then [users[0]] when that is truthy and
    [null] in every other case: the empty array, a falsy first element, a
    body without an element [0] such as [{}].  An answer with any other
    status makes it raise an error whose message holds the status code and
    the body text. *)
Theorem findUserByEmail_result_or_error enc env
    (fetch : Okta.Fetch value) email filter res :
  enc (str "profile.email eq " ++ [34] ++ email ++ [34]) = Some filter →
  fetch (Okta.users_request env filter) = Some res →
  (Okta.ok res = false →
   Okta.findUserByEmail enc env fetch email
   = Throw (Error (str "Okta API returned " ++ decimal (Okta.status res)
                   ++ str ": " ++ Okta.text res))
   ∧ Okta.carries_status_and_body (Okta.findUserByEmail enc env fetch email) res)
  ∧ (∀ r, Okta.findUserByEmail enc env fetch email = Return r →
          Okta.ok res = true
          ∧ ∃ users, Okta.json res = Some users ∧ users ≠ JNull
                     ∧ r = or_null (index0 users))
  ∧ (Okta.findUserByEmail enc env fetch email = Return JNull
     ↔ Okta.ok res = true
       ∧ ∃ users, Okta.json res = Some users
                  ∧ found_count_throws users = false
                  ∧ match index0 users with
                    | Some first => js_truthy first = false
                    | None => True
                    end)
  ∧ (Okta.ok res = true → Okta.json res = Some JNull →
     Okta.findUserByEmail enc env fetch email = Throw TypeError).
Proof.
  intros Hq Hf. unfold Okta.findUserByEmail. rewrite Hq, Hf.
  destruct (Okta.ok res) eqn:Hok; cbn [negb].
  - split; [discriminate|].
    destruct (Okta.json res) as [users|].
    + destruct (found_count_throws users) eqn:Hthrow.
      * split; [discriminate|]. split; [|intros _ [= ->]; reflexivity].
        split; [discriminate|]. intros (_ & u & [= <-] & Hu & _). congruence.
      * split; [|split; [|intros _ [= ->]; discriminate]].
        -- intros r [= <-]. split; [reflexivity|]. exists users.
           split; [reflexivity|]. split; [|reflexivity]. by intros ->.
        -- split.
           ++ intros [= Hn]. split; [reflexivity|]. exists users.
              split; [reflexivity|]. split; [assumption|]. by apply or_null_absent.
           ++ intros (_ & u & [= <-] & _ & Hu). f_equal. by apply or_null_absent.
    + split; [discriminate|]. split; [|discriminate].
      split; [discriminate|]. intros (_ & u & [=] & _).
  - split; [|split; [discriminate | split; [|discriminate]]].
    + intros _. split; [reflexivity|]. eexists. split; [reflexivity|]. split.
      * apply includes_app.
      * rewrite !app_assoc. apply includes_suffix.
    + split; [discriminate|]. intros [[=] _].
Qed.

(** X14. [findGroupByName] and errors.  The absent group is returned only
    for a successful answer in which no candidate has the name; an answer
    with a non-success status raises ["Failed to search groups: " + body],
    and a returned group is always one of the candidates. *)
Theorem findGroupByName_result_or_error enc lower env
    (fetch : Okta.Fetch (list Okta.Group)) groupName query res :
  enc groupName = Some query →
  fetch (Okta.groups_request env query) = Some res →
  (Okta.ok res = false →
   Okta.findGroupByName enc lower env fetch groupName
   = Throw (Error (str "Failed to search groups: " ++ Okta.text res)))
  ∧ (∀ r, Okta.findGroupByName enc lower env fetch groupName = Return r →
          Okta.ok res = true
          ∧ ∃ groups, Okta.json res = Some groups
                      ∧ (∀ g, r = Some g → g ∈ groups)
                      ∧ (r = None →
                         ∀ g, g ∈ groups →
                              lower (Okta.name (Okta.profile g)) ≠ lower groupName)).
Proof.
  intros Hq Hf. unfold Okta.findGroupByName. rewrite Hq, Hf.
  destruct (Okta.ok res) eqn:Hok; cbn [negb].
  - split; [discriminate|]. intros r Hr. split; [reflexivity|].
    destruct (Okta.json res) as [groups|]; [|discriminate].
    injection Hr as <-. exists groups. split; [reflexivity|]. split.
    + intros g Hg. apply find_some in Hg as [Hin _]. by apply list_elem_of_In.
    + intros Hnone g Hin Hsame. apply list_elem_of_In in Hin.
      pose proof (find_none _ _ Hnone g Hin) as Hfalse.
      by apply bool_decide_eq_false_1 in Hfalse.
  - split; [reflexivity | discriminate].
Qed.

(** X15. [getUserGroups] does not look at the status.  Whatever status Okta
    answers with, a body that parses to a list of groups gives the names of
    those groups, one for each, in the order of the list; the tool raises
    [Error] in no case. *)
Theorem getUserGroups_ignores_status env (fetch : Okta.Fetch (list Okta.Group)) userId :
  (∀ m, Okta.getUserGroups env fetch userId ≠ Throw (Error m))
  ∧ (∀ res groups,
       fetch (Okta.user_groups_request env userId) = Some res →
       Okta.json res = Some groups →
       ∃ names, Okta.getUserGroups env fetch userId = Return names
                ∧ length names = length groups
                ∧ ∀ i g, groups !! i = Some g →
                         names !! i = Some (Okta.name (Okta.profile g))).
Proof.
  unfold Okta.getUserGroups. split.
  - intros m. destruct (fetch _) as [res|]; [|discriminate].
    destruct (Okta.json res); discriminate.
  - intros res groups -> ->. eexists. split; [reflexivity|]. split.
    + apply length_map.
    + intros i g Hg. change (map ?f groups) with (f <$> groups).
      by rewrite list_lookup_fmap, Hg.
Qed.

(** X16. [resetPassword] does not look at the status.  It never raises
    [Error]: whatever status Okta answers with, a body that parses gives back
    the [resetPasswordUrl] field of that body, present or not. *)
Theorem resetPassword_ignores_status env (fetch : Okta.Fetch Okta.ResetPasswordResult) userId :
  (∀ m, Okta.resetPassword env fetch userId ≠ Throw (Error m))
  ∧ (∀ res result,
       fetch (Okta.reset_password_request env userId) = Some res →
       Okta.json res = Some result →
       Okta.resetPassword env fetch userId
       = Return {| Okta.resetPasswordUrl := Okta.resetPasswordUrl result |})
  ∧ (∀ out, Okta.resetPassword env fetch userId = Return out →
            ∃ res result, fetch (Okta.reset_password_request env userId) = Some res
                          ∧ Okta.json res = Some result
                          ∧ Okta.resetPasswordUrl out = Okta.resetPasswordUrl result).
Proof.
  unfold Okta.resetPassword. split; [|split].
  - intros m. destruct (fetch _) as [res|]; [|discriminate].
    destruct (Okta.json res); discriminate.
  - intros res result -> ->. reflexivity.
  - intros out. destruct (fetch _) as [res|]; [|discriminate].
    destruct (Okta.json res) as [result|] eqn:Hj; [|discriminate].
    intros [= <-]. exists res, result. done.
Qed.

(** X17. The success flag is never false.  [lockUser], [unlockUser],
    [addUserToGroup] and [resetMFA] return a value only when Okta answered
    their one request with a success status, and the value then has
    [success = true]; in every other case they raise. *)
Theorem status_tools_return_only_success {A} env (fetch : Okta.Fetch A) userId groupId :
  (∀ out, Okta.lockUser env fetch userId = Return out →
          Okta.success out = true
          ∧ ∃ res, fetch (Okta.lifecycle env userId (str "suspend")) = Some res
                   ∧ Okta.ok res = true)
  ∧ (∀ out, Okta.unlockUser env fetch userId = Return out →
            Okta.success out = true
            ∧ ∃ res, fetch (Okta.lifecycle env userId (str "unsuspend")) = Some res
                     ∧ Okta.ok res = true)
  ∧ (∀ out, Okta.addUserToGroup env fetch userId groupId = Return out →
            Okta.success out = true
            ∧ ∃ res, fetch (Okta.membership_request env userId groupId) = Some res
                     ∧ Okta.ok res = true)
  ∧ (∀ out, Okta.resetMFA env fetch userId = Return out →
            Okta.success out = true
            ∧ ∃ res, fetch (Okta.lifecycle env userId (str "reset_factors")) = Some res
                     ∧ Okta.ok res = true).
Proof.
  unfold Okta.lockUser, Okta.unlockUser, Okta.addUserToGroup, Okta.resetMFA.
  split; [|split; [|split]]; intros out;
    (destruct (fetch _) as [res|]; [|discriminate]);
    (destruct (Okta.ok res) eqn:Hok; [|discriminate]);
    cbn [negb]; intros [= <-]; (split; [reflexivity|]); exists res; done.
Qed.

(** ** The further properties at the sample inputs *)

Lemma plain_message_forwarded_verbatim_witness :
  reaches_gate message_with_token = true
  ∧ agent_calls (serve sample_world message_with_token ∅).2 = [str " <@U123ABC> hello "].
Proof.
  split; [reflexivity|].
  refine (plain_message_forwarded_verbatim sample_world message_with_token _ _ ∅
            eq_refl (not_elem_of_empty _) eq_refl eq_refl eq_refl _).
  discriminate.
Defined.

Lemma reply_posted_to_event_channel_witness :
  reaches_gate sample_message = true
  ∧ ∃ req, posts (serve sample_world sample_message ∅).2 = [req]
           ∧ body req = Some {| channel := Some (str "C1");
                                text := str "On it: help me reset my password" |}.
Proof.
  split; [reflexivity|].
  destruct (reply_posted_to_event_channel sample_world sample_message _ ∅ _
              eq_refl (not_elem_of_empty _) eq_refl eq_refl eq_refl)
    as (req & Hp & _ & _ & _ & Hb).
  exists req. split; assumption.
Defined.

Lemma downstream_failure_is_contained_witness :
  reaches_gate sample_message = true
  ∧ posts (serve failing_world sample_message ∅).2 = []
  ∧ responses (serve failing_world sample_message ∅).2 = [ack].
Proof.
  split; [reflexivity|].
  destruct (downstream_failure_is_contained failing_world sample_message _ ∅
              eq_refl (not_elem_of_empty _) eq_refl eq_refl)
    as (_ & Hp & Hr & _).
  split; [exact (Hp eq_refl) | exact Hr].
Defined.

Lemma set_holds_gate_fingerprints_witness :
  one_window [Deliver sample_world sample_message; Deliver sample_world bot_without_id]
  ∧ (str "1.1_C1"
       ∈ (run ∅ [Deliver sample_world sample_message;
                 Deliver sample_world bot_without_id]).2
     ↔ str "1.1_C1" ∈ (∅ : gset jsstring)
       ∨ str "1.1_C1" ∈ gate_fingerprints [Deliver sample_world sample_message;
                                           Deliver sample_world bot_without_id]).
Proof.
  assert (one_window [Deliver sample_world sample_message;
                      Deliver sample_world bot_without_id]) as Hw
    by (apply one_window_deliver, one_window_deliver, one_window_nil).
  split; [exact Hw|].
  exact (set_holds_gate_fingerprints ∅ _ Hw (str "1.1_C1")).
Defined.

Lemma tick_forgets_history_witness :
  reaches_gate sample_message = true
  ∧ agent_calls
      (serve sample_world sample_message
         (run ∅ ([] ++ [Deliver sample_world sample_message; Tick])).2).2
    = [str "help me reset my password"].
Proof.
  split; [reflexivity|].
  exact (proj2 (tick_forgets_history ∅ [] sample_world sample_message _
                  eq_refl eq_refl eq_refl)).
Defined.

Lemma other_fingerprints_do_not_interfere_witness :
  Forall (other_fingerprint (fingerprint sample_message))
    [Deliver sample_world sample_mention]
  ∧ (serve sample_world sample_message
       (run ∅ [Deliver sample_world sample_mention]).2).2
    = (serve sample_world sample_message ∅).2.
Proof.
  assert (Forall (other_fingerprint (fingerprint sample_message))
            [Deliver sample_world sample_mention]) as Hall.
  { constructor; [|constructor]. cbn. discriminate. }
  split; [exact Hall|].
  exact (other_fingerprints_do_not_interfere ∅ _ sample_world sample_message Hall).
Defined.

Lemma fingerprint_injective_on_keys_witness :
  identifier (event sample_message) = Some (str "1.1")
  ∧ identifier (event sample_mention) = Some (str "2.1")
  ∧ (UNDERSCORE ∉ str "1.1")
  ∧ (UNDERSCORE ∉ str "2.1")
  ∧ (eventId (event sample_message) = eventId (event sample_mention)
     ↔ str "1.1" = str "2.1" ∧ str "C1" = str "C1").
Proof.
  assert (∀ key : jsstring, forallb (fun c => negb (c =? UNDERSCORE)) key = true →
                            UNDERSCORE ∉ key) as Hfree.
  { intros key Hk Hin. rewrite forallb_forall in Hk.
    apply list_elem_of_In, Hk in Hin. by rewrite N.eqb_refl in Hin. }
  assert (UNDERSCORE ∉ str "1.1") as H1 by (by apply Hfree).
  assert (UNDERSCORE ∉ str "2.1") as H2 by (by apply Hfree).
  split; [reflexivity|]. split; [reflexivity|]. split; [exact H1|]. split; [exact H2|].
  exact (fingerprint_injective_on_keys (event sample_message) (event sample_mention)
           (str "1.1") (str "2.1") (str "C1") (str "C1")
           eq_refl eq_refl eq_refl eq_refl H1 H2).
Defined.

Lemma mention_body_shape_witness :
  reaches_gate sample_mention = true
  ∧ ∃ m, agent_calls (serve sample_world sample_mention ∅).2 = [m]
         ∧ m `sublist_of` str "<@U123ABC> reset my password".
Proof.
  split; [reflexivity|].
  assert (str "<@U123ABC> reset my password" ≠ []) as Hne by discriminate.
  destruct (mention_body_shape sample_world sample_mention _ _ ∅
              eq_refl (not_elem_of_empty _) eq_refl eq_refl eq_refl Hne)
    as (m & Hm & Hsub & _).
  exists m. split; assumption.
Defined.

Lemma bare_mention_forwards_empty_text_witness :
  reaches_gate bare_mention = true
  ∧ agent_calls (serve sample_world bare_mention ∅).2 = [[]].
Proof.
  split; [reflexivity|].
  refine (bare_mention_forwards_empty_text sample_world bare_mention _
            (str "U123ABC") (str "  ") ∅
            eq_refl (not_elem_of_empty _) eq_refl eq_refl eq_refl _ _ _).
  - discriminate.
  - repeat constructor.
  - repeat constructor.
Defined.

Lemma findUserByEmail_result_or_error_witness :
  Okta.answering (users_found (JObj [])) (Okta.users_request sample_env (str "q"))
  = Some (users_found (JObj []))
  ∧ Okta.findUserByEmail (fun _ => Some (str "q")) sample_env
      (Okta.answering (users_found (JObj []))) (str "john@x.com")
    = Return JNull.
Proof.
  split; [reflexivity|].
  apply (findUserByEmail_result_or_error (fun _ => Some (str "q")) sample_env
           (Okta.answering (users_found (JObj []))) (str "john@x.com") (str "q")
           (users_found (JObj [])) eq_refl eq_refl).
  split; [reflexivity|]. exists (JObj []). repeat split.
Defined.

Lemma findGroupByName_result_or_error_witness :
  Okta.ok not_found = false
  ∧ Okta.findGroupByName Some Okta.lower_latin sample_env
      (Okta.answering {| Okta.status := 404; Okta.text := str "gone";
                         Okta.json := None |})
      (str "developers")
    = Throw (Error (str "Failed to search groups: " ++ str "gone")).
Proof.
  split; [reflexivity|].
  exact (proj1 (findGroupByName_result_or_error Some Okta.lower_latin sample_env
                  (Okta.answering {| Okta.status := 404; Okta.text := str "gone";
                                     Okta.json := None |})
                  (str "developers") _ _ eq_refl eq_refl) eq_refl).
Defined.
